(** * Bounded notification dispatcher (EmailService)

    A shallow embedding of the [EmailService] class of the repository
    (constructor, [sendEmail], [sendBeauticianApprovalEmail]) together
    with the JavaScript primitives it relies on, followed by the
    properties of the dispatcher.

    Conventions of the embedding.
    - A JavaScript string is a [string] holding its UTF-8 bytes.  Every
      string the code searches for or splits on is ASCII, so searching
      and splitting agree with the UTF-16 view of the engine.
    - [process.env] is a finite map from names to strings; a lookup that
      yields [None] is JavaScript's [undefined].
    - Effects (log events, calls made on the transport client, the
      clock read by [Date.now()]) are threaded through a state and
      exception monad [Js]; a computation may return, throw, or hang on
      an [await] that never settles.
    - Time is measured in milliseconds from the moment the two promises
      of the race are created; the timer created by [setTimeout] is
      taken to fire exactly at its delay.  The instants order the events
      of a call; they are not measured latencies, which in the engine
      exceed the delay by a few milliseconds.
    - Caught values are typed as TypeScript types them ([Thrown]); the
      module [Runtime] embeds [sendEmail] again over the values the
      engine allows, an [Error] with a message that is not a string
      included. *)

From Stdlib Require Import ZArith String Ascii List DecimalString Lia.
From Stdlib Require DecimalNat.
From stdpp Require Import base option strings gmap.
Import ListNotations.

Local Open Scope string_scope.

(* ===================================================================== *)
(** ** JavaScript primitives *)
(* ===================================================================== *)

Module JsPrim.

(** The double-quote character.  Literals below are written with a
    backtick wherever the source has a double quote; [quoted] puts the
    double quotes back.  No literal of the source contains a backtick. *)
Definition dquote : ascii := ascii_of_nat 34.
Definition backtick : ascii := ascii_of_nat 96.

Fixpoint quoted (s : string) : string :=
  match s with
  | EmptyString => EmptyString
  | String c s' =>
      String (if Ascii.eqb c backtick then dquote else c) (quoted s')
  end.

(** Truthiness of a value of type [string | undefined]: [undefined] and
    the empty string are falsy, every other string is truthy. *)
Definition truthy (v : option string) : bool :=
  match v with
  | Some s => negb (String.eqb s "")
  | None => false
  end.

(** [a || b] where both sides have type [string | undefined]. *)
Definition or_else (a b : option string) : option string :=
  if truthy a then a else b.

(** [a || 'literal']: the right operand is a string, so is the result. *)
Definition or_default (a : option string) (b : string) : string :=
  match a with
  | Some s => if truthy a then s else b
  | None => b
  end.

(** [a === 'literal'] for [a : string | undefined]. *)
Definition strict_eq (a : option string) (b : string) : bool :=
  match a with
  | Some s => String.eqb s b
  | None => false
  end.

(** [s.includes(sub)]. *)
Fixpoint includes (s sub : string) : bool :=
  if String.prefix sub s then true
  else match s with
       | EmptyString => false
       | String _ s' => includes s' sub
       end.

(** [s.split(sep)] for a one-character separator: never empty, the
    empty string splits into one empty entry. *)
Fixpoint split (sep : ascii) (s : string) : list string :=
  match s with
  | EmptyString => [EmptyString]
  | String c s' =>
      if Ascii.eqb c sep then EmptyString :: split sep s'
      else match split sep s' with
           | x :: rest => String c x :: rest
           | [] => [String c EmptyString]
           end
  end.

(** [v?.split(',')[0]]: optional chaining keeps [undefined]. *)
Definition first_entry (v : option string) : option string :=
  match v with
  | Some s => head (split "," s)
  | None => None
  end.

(** Template-literal rendering of a non-negative integer. *)
Definition show_nat (n : nat) : string :=
  NilEmpty.string_of_uint (Nat.to_uint n).

(** *** Numbers and [parseInt] *)

(** The number values [parseInt] can produce. *)
Inductive JsNumber :=
| NaN
| Num (z : Z)
| NegZero
| Infinity (negative : bool).

Definition bytes (l : list nat) : string :=
  fold_right (fun n s => String (ascii_of_nat n) s) EmptyString l.

(** White space and line terminators skipped by [parseInt], as UTF-8. *)
Definition white_space : list string :=
  map bytes
    ([[9]; [10]; [11]; [12]; [13]; [32]; [194; 160]; [225; 154; 128]]
     ++ map (fun k => [226; 128; k]) (seq 128 11)
     ++ [[226; 128; 168]; [226; 128; 169]; [226; 128; 175];
         [226; 129; 159]; [227; 128; 128]; [239; 187; 191]])%list.

Fixpoint drop_prefix (n : nat) (s : string) : string :=
  match n, s with
  | S n', String _ s' => drop_prefix n' s'
  | _, _ => s
  end.

(** Drops one leading white-space character, if there is one. *)
Definition skip_one (s : string) : option string :=
  match List.find (fun w => String.prefix w s) white_space with
  | Some w => Some (drop_prefix (String.length w) s)
  | None => None
  end.

Fixpoint trim_start_fuel (fuel : nat) (s : string) : string :=
  match fuel with
  | O => s
  | S fuel' =>
      match skip_one s with
      | Some s' => trim_start_fuel fuel' s'
      | None => s
      end
  end.

Definition trim_start (s : string) : string :=
  trim_start_fuel (String.length s) s.

Definition digit_value (radix : Z) (c : ascii) : option Z :=
  let n := Z.of_nat (nat_of_ascii c) in
  let v :=
    if (48 <=? n)%Z && (n <=? 57)%Z then Some (n - 48)%Z
    else if (97 <=? n)%Z && (n <=? 122)%Z then Some (n - 87)%Z
    else if (65 <=? n)%Z && (n <=? 90)%Z then Some (n - 55)%Z
    else None in
  match v with
  | Some d => if (d <? radix)%Z then Some d else None
  | None => None
  end.

(** Value of the longest prefix of radix digits; [None] when it is empty. *)
Fixpoint parse_digits (radix : Z) (acc : option Z) (s : string) : option Z :=
  match s with
  | EmptyString => acc
  | String c s' =>
      match digit_value radix c with
      | Some d =>
          parse_digits radix
            (Some (match acc with Some a => a * radix + d | None => d end)%Z) s'
      | None => acc
      end
  end.

(** Nearest double (ties to even) of a non-negative integer. *)
Definition to_double (sign_negative : bool) (n : Z) : JsNumber :=
  if (n =? 0)%Z then (if sign_negative then NegZero else Num 0)
  else
    let e := (Z.log2 n - 52)%Z in
    let r :=
      if (e <=? 0)%Z then n
      else
        let q := Z.shiftr n e in
        let rest := Z.land n (Z.ones e) in
        let half := Z.shiftl 1 (e - 1) in
        let q' := if (half <? rest)%Z || ((rest =? half)%Z && Z.odd q)
                  then (q + 1)%Z else q in
        Z.shiftl q' e in
    if (Z.shiftl 1 1024 <=? r)%Z then Infinity sign_negative
    else Num (if sign_negative then - r else r)%Z.

(** [parseInt(s)] with no radix argument. *)
Definition parseInt (input : string) : JsNumber :=
  let s := trim_start input in
  let '(negative, s) :=
    match s with
    | String "-" s' => (true, s')
    | String "+" s' => (false, s')
    | _ => (false, s)
    end in
  let '(radix, s) :=
    match s with
    | String "0" (String "x" s') => (16%Z, s')
    | String "0" (String "X" s') => (16%Z, s')
    | _ => (10%Z, s)
    end in
  match parse_digits radix None s with
  | None => NaN
  | Some n => to_double negative n
  end.

End JsPrim.
Import JsPrim.


(* ===================================================================== *)
(** ** Effects: the world, completions and the [Js] monad *)
(* ===================================================================== *)

Module Effects.

(** A thrown value or a rejection reason.  [ErrorObject] is an instance
    of [Error]; its [message] is a string, as its TypeScript type says.
    The other two stand for values that are not [Error] instances.
    An [Error] whose message is not a string, which the type rules out and
    the engine allows, is a value of [Runtime.Caught] further down, where
    [sendEmail] is embedded over such values too. *)
Inductive Thrown :=
| ErrorObject (message : string)
| StringValue (s : string)
| ObjectValue (fields : list (string * string)).

Definition instanceof_Error (e : Thrown) : bool :=
  match e with
  | ErrorObject _ => true
  | _ => false
  end.

Inductive Level := LInfo | LWarn | LError.

(** One structured log event: level, message and the fields of the
    metadata object ([None] is a field holding [undefined]). *)
Record LogEvent := {
  log_level : Level;
  log_message : string;
  log_fields : list (string * option string)
}.

(** The object handed to [transporter.sendMail]. *)
Record MailOptions := {
  mail_from : option string;
  mail_to : string;
  mail_subject : string;
  mail_html : string
}.

(** What the service may ask of its transport client. *)
Inductive TransportOp :=
| SendMailOp (m : MailOptions)
| CloseOp.

Record World := {
  env : gmap string string;      (* process.env *)
  logs : list LogEvent;          (* events emitted so far, oldest first *)
  ops : list TransportOp;        (* operations on the transport client *)
  clock : nat                    (* Date.now(), in ms *)
}.

Inductive Completion (A : Type) :=
| Normal (a : A)
| Abrupt (e : Thrown)
| Hang.
Arguments Normal {A} a.
Arguments Abrupt {A} e.
Arguments Hang {A}.

Definition Js (A : Type) : Type := World -> Completion A * World.

#[export] Instance Js_ret : MRet Js := fun A a w => (Normal a, w).

#[export] Instance Js_bind : MBind Js := fun A B f c w =>
  match c w with
  | (Normal a, w') => f a w'
  | (Abrupt e, w') => (Abrupt e, w')
  | (Hang, w') => (Hang, w')
  end.

Definition throw {A} (e : Thrown) : Js A := fun w => (Abrupt e, w).

(** [try { body } catch (error) { handler }]. *)
Definition try_catch {A} (body : Js A) (handler : Thrown -> Js A) : Js A :=
  fun w =>
    match body w with
    | (Abrupt e, w') => handler e w'
    | r => r
    end.

Definition process_env : Js (gmap string string) :=
  fun w => (Normal (env w), w).

Definition Date_now : Js nat := fun w => (Normal (clock w), w).

(** Modelled from the spec: the logging collaborator ([../logger]) is
    not among the sources.  A call emits one structured event (level,
    message, fields) to the observability sink and returns. *)
Definition emit (l : Level) (msg : string)
    (fields : list (string * option string)) : Js unit :=
  fun w =>
    (Normal tt,
     {| env := env w;
        logs := logs w ++ [{| log_level := l; log_message := msg;
                              log_fields := fields |}];
        ops := ops w; clock := clock w |}).

Definition logger_info := emit LInfo.
Definition logger_warn := emit LWarn.
Definition logger_error := emit LError.

(** *** Promises *)

Inductive Settlement :=
| Fulfilled (messageId : option string)
| Rejected (reason : Thrown).

(** A promise is described by when and how it settles, if ever. *)
Inductive Promise :=
| SettlesAt (t : nat) (s : Settlement)
| Pending.

(** [new Promise((_, reject) => setTimeout(() => reject(e), ms))].
    The promise is taken to settle [ms] after the race starts.  In the
    engine [setTimeout] gives a lower bound and the timer is armed after
    [sendMail] has returned, so a run that times out returns a little
    after [ms]: the instants of the model order the events of the race
    and are not measured latencies. *)
Definition reject_after (ms : nat) (e : Thrown) : Promise :=
  SettlesAt ms (Rejected e).

(** The earlier of two promises; when both settle at the same instant
    the one listed first is taken.  That is a choice of the model: in the
    engine the order at one instant is that of the queued callbacks and
    can go either way.  The statements about the race are made for
    promises that settle strictly before or strictly after the timer, or
    hold for either order. *)
Definition race2 (p q : Promise) : Promise :=
  match p, q with
  | Pending, _ => q
  | _, Pending => p
  | SettlesAt t _, SettlesAt u _ => if (t <=? u)%nat then p else q
  end.

(** [Promise.race(ps)]. *)
Definition Promise_race (ps : list Promise) : Promise :=
  fold_right race2 Pending ps.

(** [await p]: the caller is suspended until [p] settles. *)
Definition await (p : Promise) : Js (option string) :=
  fun w =>
    match p with
    | Pending => (Hang, w)
    | SettlesAt t s =>
        let w' := {| env := env w; logs := logs w; ops := ops w;
                     clock := clock w + t |} in
        match s with
        | Fulfilled v => (Normal v, w')
        | Rejected e => (Abrupt e, w')
        end
    end.

(** *** The transport library *)

Record TransportOptions := {
  host : option string;
  port : JsNumber;
  secure : bool;
  auth_user : option string;
  auth_pass : option string;
  connectionTimeout : nat;
  socketTimeout : nat;
  greetingTimeout : nat
}.

(** A call of [sendMail] either throws on the spot or hands back a
    promise. *)
Inductive CallResult :=
| Returns (p : Promise)
| ThrowsSync (e : Thrown).

(** The interface of the mail library: building a client from options
    opens no connection; what a client answers to [sendMail] is up to
    the implementation (the network, or a stub). *)
Class Nodemailer := {
  Transporter : Type;
  createTransport : TransportOptions -> Transporter;
  sendMail_answer : Transporter -> MailOptions -> CallResult
}.

(** [transporter.sendMail(m)]: the call is recorded, then answered. *)
Definition sendMail `{Nodemailer} (t : Transporter) (m : MailOptions)
    : Js Promise :=
  fun w =>
    let w' := {| env := env w; logs := logs w;
                 ops := ops w ++ [SendMailOp m]; clock := clock w |} in
    match sendMail_answer t m with
    | Returns p => (Normal p, w')
    | ThrowsSync e => (Abrupt e, w')
    end.

End Effects.
Import Effects.

(* ===================================================================== *)
(** ** The service *)
(* ===================================================================== *)

Record EmailOptions := {
  to : string;
  subject : string;
  html : string
}.

(** [{ success: boolean; error?: string }]. *)
Record SendResult := {
  success : bool;
  error : option string
}.

Module EmailService.
Section WithTransport.
Context `{Nodemailer}.

Record t := {
  transporter : option Transporter
}.

Definition EMAIL_TIMEOUT_MS : nat := 5000.

Definition constructor : Js t :=
  env ← process_env;
  if truthy (env !! "SMTP_HOST") && truthy (env !! "SMTP_USER")
     && truthy (env !! "SMTP_PASS")
  then
    let transporter :=
      createTransport
        {| host := env !! "SMTP_HOST";
           port := parseInt (or_default (env !! "SMTP_PORT") "587");
           secure := strict_eq (env !! "SMTP_PORT") "465";
           auth_user := env !! "SMTP_USER";
           auth_pass := env !! "SMTP_PASS";
           connectionTimeout := EMAIL_TIMEOUT_MS;
           socketTimeout := EMAIL_TIMEOUT_MS;
           greetingTimeout := EMAIL_TIMEOUT_MS |} in
    logger_info "Email service initialized"
      [("host", env !! "SMTP_HOST");
       ("port", Some (or_default (env !! "SMTP_PORT") "587"))];;
    mret {| transporter := Some transporter |}
  else
    logger_warn "Email service not configured - SMTP credentials missing" [];;
    mret {| transporter := None |}.

Definition timeout_reason : string :=
  "Email send timeout after " +:+ show_nat EMAIL_TIMEOUT_MS
  +:+ "ms - SMTP server may be slow or unresponsive".

Definition timeout_result_message : string :=
  "Email sending timed out or failed after " +:+ show_nat EMAIL_TIMEOUT_MS
  +:+ "ms. The email may still be queued for delivery.".

Definition sendEmail (this : t) (options : EmailOptions) : Js SendResult :=
  match transporter this with
  | None =>
      logger_warn "Email service not configured - email not sent"
        [("to", Some (to options))];;
      mret {| success := false; error := Some "Email service not configured" |}
  | Some transporter =>
      startTime ← Date_now;
      try_catch
        (env ← process_env;
         let mailOptions :=
           {| mail_from := env !! "SMTP_USER";
              mail_to := to options;
              mail_subject := subject options;
              mail_html := html options |} in
         logger_info "Attempting to send email"
           [("to", Some (to options)); ("subject", Some (subject options))];;
         sendPromise ← sendMail transporter mailOptions;
         let timeoutPromise :=
           reject_after EMAIL_TIMEOUT_MS (ErrorObject timeout_reason) in
         result ← await (Promise_race [sendPromise; timeoutPromise]);
         now ← Date_now;
         let duration := now - startTime in
         logger_info "Email sent successfully"
           [("to", Some (to options)); ("subject", Some (subject options));
            ("duration", Some (show_nat duration +:+ "ms"));
            ("messageId", result)];;
         mret {| success := true; error := None |})
        (fun error =>
           now ← Date_now;
           let duration := now - startTime in
           let errorMessage :=
             match error with
             | ErrorObject message => message
             | _ => "Unknown error"
             end in
           logger_error "Failed to send email"
             [("to", Some (to options)); ("subject", Some (subject options));
              ("error", Some errorMessage);
              ("duration", Some (show_nat duration +:+ "ms"))];;
           if includes errorMessage "timeout" then
             mret {| success := false; error := Some timeout_result_message |}
           else
             mret {| success := false; error := Some errorMessage |})
  end.

Definition html_head : string := quoted "
      <!DOCTYPE html>
      <html>
        <head>
          <meta charset=`UTF-8`>
          <style>
            body { font-family: Arial, sans-serif; line-height: 1.6; color: #333; }
            .container { max-width: 600px; margin: 0 auto; padding: 20px; }
            .header { background: linear-gradient(135deg, #667eea 0%, #764ba2 100%); color: white; padding: 30px; text-align: center; border-radius: 10px 10px 0 0; }
            .content { background: #f9f9f9; padding: 30px; border-radius: 0 0 10px 10px; }
            .credentials { background: white; padding: 20px; border-radius: 8px; margin: 20px 0; border-left: 4px solid #667eea; }
            .button { display: inline-block; background: #667eea; color: white; padding: 12px 30px; text-decoration: none; border-radius: 5px; margin: 20px 0; }
            .footer { text-align: center; margin-top: 30px; color: #666; font-size: 12px; }
          </style>
        </head>
        <body>
          <div class=`container`>
            <div class=`header`>
              <h1>Welcome to Kosmospace!</h1>
            </div>
            <div class=`content`>
              <p>Dear ".

Definition html_after_firstName : string := quoted ",</p>
              
              <p>Great news! Your beautician application has been <strong>approved</strong>! 🎉</p>
              
              <p>You can now access your beautician dashboard to manage your services, view bookings, and start accepting customers.</p>
              
              <div class=`credentials`>
                <h3>Your Login Credentials:</h3>
                <p><strong>Email:</strong> ".

Definition html_after_email : string := quoted "</p>
                <p><strong>Password:</strong> <code style=`background: #f0f0f0; padding: 4px 8px; border-radius: 4px; font-size: 14px;`>".

Definition html_after_password : string := quoted "</code></p>
                <p style=`color: #d32f2f; font-size: 12px; margin-top: 10px;`>
                  ⚠️ Please change your password after your first login for security.
                </p>
              </div>
              
              <div style=`text-align: center;`>
                <a href=`".

Definition html_tail : string := quoted "/login` class=`button`>Login to Dashboard</a>
              </div>
              
              <p>Once logged in, you can:</p>
              <ul>
                <li>Add and manage your services</li>
                <li>View and manage bookings</li>
                <li>Update your profile information</li>
                <li>Track your earnings</li>
              </ul>
              
              <p>If you have any questions, please don't hesitate to contact our support team.</p>
              
              <p>Welcome aboard!</p>
              <p><strong>The Kosmospace Team</strong></p>
            </div>
            <div class=`footer`>
              <p>This is an automated email. Please do not reply to this message.</p>
            </div>
          </div>
        </body>
      </html>
    ".

Definition default_login_base : string := "https://www.kosmospace.com".

Definition approval_subject : string :=
  "Welcome to Kosmospace - Your Application Has Been Approved!".

Definition loginUrl_of (env : gmap string string) : string :=
  or_default
    (or_else (env !! "FRONTEND_URL") (first_entry (env !! "REPLIT_DOMAINS")))
    default_login_base.

Definition approval_html (loginUrl email firstName password : string) : string :=
  html_head +:+ firstName +:+ html_after_firstName +:+ email
  +:+ html_after_email +:+ password +:+ html_after_password +:+ loginUrl
  +:+ html_tail.

Definition sendBeauticianApprovalEmail (this : t)
    (email firstName password : string) : Js SendResult :=
  env ← process_env;
  let loginUrl := loginUrl_of env in
  let subject := approval_subject in
  let html := approval_html loginUrl email firstName password in
  sendEmail this {| to := email; subject := subject; html := html |}.

End WithTransport.
End EmailService.
Import EmailService.

(* ===================================================================== *)
(** ** Vocabulary of the statements *)
(* ===================================================================== *)

(** The message [sendEmail] hands to the transport in world [w]. *)
Definition outgoing (w : World) (options : EmailOptions) : MailOptions :=
  {| mail_from := env w !! "SMTP_USER";
     mail_to := to options;
     mail_subject := subject options;
     mail_html := html options |}.

(** The timer of the race. *)
Definition timer : Promise :=
  reject_after EMAIL_TIMEOUT_MS (ErrorObject timeout_reason).

(** The promise settles no later than [bound] ms after its creation. *)
Definition settles_by (bound : nat) (p : Promise) : bool :=
  match p with
  | SettlesAt t _ => (t <=? bound)%nat
  | Pending => false
  end.

(** The transport call fails with [e] and the [catch] block receives
    that failure: the call throws on the spot, or its promise rejects
    before the timer fires. *)
Definition transport_fails_with (answer : CallResult) (e : Thrown) : Prop :=
  answer = ThrowsSync e \/
  exists t, answer = Returns (SettlesAt t (Rejected e)) /\ t < EMAIL_TIMEOUT_MS.

(** [error instanceof Error ? error.message : 'Unknown error']. *)
Definition caught_message (e : Thrown) : string :=
  match e with
  | ErrorObject message => message
  | _ => "Unknown error"
  end.

(** What the [catch] block returns for the value it caught. *)
Definition failure_of (e : Thrown) : SendResult :=
  {| success := false;
     error := Some (if includes (caught_message e) "timeout"
                    then timeout_result_message else caught_message e) |}.

(** The world once the attempt is logged and the call is made. *)
Definition after_call (w : World) (options : EmailOptions) : World :=
  {| env := env w;
     logs := logs w ++
       [{| log_level := LInfo; log_message := "Attempting to send email";
           log_fields := [("to", Some (to options));
                          ("subject", Some (subject options))] |}];
     ops := ops w ++ [SendMailOp (outgoing w options)];
     clock := clock w |}.

(** The variable [k] is present in the environment. *)
Definition present (e : gmap string string) (k : string) : Prop :=
  is_Some (e !! k).

(** The variable [k] is set to a non-empty string. *)
Definition supplied (e : gmap string string) (k : string) : Prop :=
  exists v, e !! k = Some v /\ v <> "".

(** [f] is the first entry of the comma-separated list [d]: the part of
    [d] before its first comma, all of [d] when it has none. *)
Definition first_entry_of (d f : string) : Prop :=
  includes f "," = false /\ (d = f \/ exists rest, d = f +:+ "," +:+ rest).

Definition warn_unconfigured_send (options : EmailOptions) : LogEvent :=
  {| log_level := LWarn;
     log_message := "Email service not configured - email not sent";
     log_fields := [("to", Some (to options))] |}.

Definition warn_unconfigured_construction : LogEvent :=
  {| log_level := LWarn;
     log_message := "Email service not configured - SMTP credentials missing";
     log_fields := [] |}.

(** The anchor around the login link, as the template spells it. *)
Definition link_open : string := quoted "<a href=`".
Definition link_close : string :=
  quoted "` class=`button`>Login to Dashboard</a>".

Definition before_link : string :=
  substring 0 (String.length html_after_password - String.length link_open)
    html_after_password.
Definition after_link : string :=
  drop_prefix (String.length ("/login" +:+ link_close)) html_tail.

(** A transport stub: clients are their options, every [sendMail] is
    answered by [answer]. *)
Definition stub (answer : MailOptions -> CallResult) : Nodemailer :=
  {| Transporter := TransportOptions;
     createTransport := fun o => o;
     sendMail_answer := fun _ => answer |}.

(** A world at process start with environment [e]. *)
Definition boot (e : gmap string string) : World :=
  {| env := e; logs := []; ops := []; clock := 0 |}.

Definition env_test : gmap string string :=
  <["SMTP_HOST" := "smtp.test"]>
    (<["SMTP_PORT" := "587"]>
       (<["SMTP_USER" := "a@test"]> (<["SMTP_PASS" := "x"]> ∅))).

Definition env_empty_host : gmap string string :=
  <["SMTP_HOST" := ""]>
    (<["SMTP_USER" := "a@test"]> (<["SMTP_PASS" := "x"]> ∅)).

Definition env_secure : gmap string string :=
  <["SMTP_PORT" := "465"]> env_test.

Definition request : EmailOptions :=
  {| to := "client@test"; subject := "Hello"; html := "<p>Hello</p>" |}.

(** The options the constructor derives from [env_test], and the service
    holding the stub client built from them. *)
Definition opts_test : TransportOptions :=
  {| host := Some "smtp.test"; port := Num 587; secure := false;
     auth_user := Some "a@test"; auth_pass := Some "x";
     connectionTimeout := 5000; socketTimeout := 5000;
     greetingTimeout := 5000 |}.

Definition service_test (answer : MailOptions -> CallResult)
    : @t (stub answer) :=
  @Build_t (stub answer) (Some opts_test).

(** Transport stubs: resolves after 6000 ms; never settles; rejects at
    once with an [Error]; rejects at once with a string. *)
Definition slow : MailOptions -> CallResult :=
  fun _ => Returns (SettlesAt (6 * 1000) (Fulfilled (Some "<1@smtp.test>"))).
Definition hung : MailOptions -> CallResult :=
  fun _ => Returns Pending.
Definition rejecting (m : string) : MailOptions -> CallResult :=
  fun _ => Returns (SettlesAt 0 (Rejected (ErrorObject m))).
Definition rejecting_string (v : string) : MailOptions -> CallResult :=
  fun _ => Returns (SettlesAt 0 (Rejected (StringValue v))).

Definition env_no_port : gmap string string :=
  <["SMTP_HOST" := "smtp.test"]>
    (<["SMTP_USER" := "a@test"]> (<["SMTP_PASS" := "x"]> ∅)).

Definition unconfigured_service : @t (stub hung) := @Build_t (stub hung) None.

(** *** Events and results of a send, spelled out *)

(** What [sendEmail] returns once the race has settled with [s]. *)
Definition result_of (s : Settlement) : SendResult :=
  match s with
  | Fulfilled _ => {| success := true; error := None |}
  | Rejected e => failure_of e
  end.

Definition attempt_event (options : EmailOptions) : LogEvent :=
  {| log_level := LInfo; log_message := "Attempting to send email";
     log_fields := [("to", Some (to options));
                    ("subject", Some (subject options))] |}.

Definition success_event (options : EmailOptions) (duration : nat)
    (messageId : option string) : LogEvent :=
  {| log_level := LInfo; log_message := "Email sent successfully";
     log_fields := [("to", Some (to options));
                    ("subject", Some (subject options));
                    ("duration", Some (show_nat duration +:+ "ms"));
                    ("messageId", messageId)] |}.

Definition failure_event (options : EmailOptions) (duration : nat)
    (e : Thrown) : LogEvent :=
  {| log_level := LError; log_message := "Failed to send email";
     log_fields := [("to", Some (to options));
                    ("subject", Some (subject options));
                    ("error", Some (caught_message e));
                    ("duration", Some (show_nat duration +:+ "ms"))] |}.

(** The event logged once the race has settled with [s]. *)
Definition outcome_event (options : EmailOptions) (duration : nat)
    (s : Settlement) : LogEvent :=
  match s with
  | Fulfilled v => success_event options duration v
  | Rejected e => failure_event options duration e
  end.

(** The greeting of the approval email, as the template spells it. *)
Definition greeting_open : string := "<p>Dear ".
Definition greeting_close : string := ",</p>".

Definition before_greeting : string :=
  substring 0 (String.length html_head - String.length greeting_open) html_head.
Definition after_greeting : string :=
  drop_prefix (String.length greeting_close) html_after_firstName.

(* ===================================================================== *)
(** ** The scripts *)
(* ===================================================================== *)

(** *** A script process: console, database trace, exit *)

Module Process.

Inductive ConsoleLine :=
| LogLine (text : string)                          (* console.log(text) *)
| ErrorLine (text : string)                        (* console.error(text) *)
| ErrorLineWith (text : string) (value : Thrown).  (* console.error(text, value) *)

(** What the admin script asks of the database. *)
Inductive Query :=
| SelectUsersByEmail (email : string) (limit : nat)
| UpdateUsersByEmail (email : string) (role passwordHash : string)
    (updatedAt : nat)
| InsertUser (email firstName lastName role passwordHash : string).

Record State := {
  console : list ConsoleLine;   (* lines written so far, oldest first *)
  queries : list Query;         (* statements sent to the database *)
  hashed : list string;         (* arguments of hashPassword *)
  now : nat                     (* the clock read by new Date() *)
}.

(** A script step returns, throws, or ends the process. *)
Inductive Outcome (A : Type) :=
| Value (a : A)
| Raised (e : Thrown)
| Exited (code : nat).
Arguments Value {A} a.
Arguments Raised {A} e.
Arguments Exited {A} code.

Definition Script (A : Type) : Type := State -> Outcome A * State.

#[export] Instance Script_ret : MRet Script := fun A a st => (Value a, st).

#[export] Instance Script_bind : MBind Script := fun A B f c st =>
  match c st with
  | (Value a, st') => f a st'
  | (Raised e, st') => (Raised e, st')
  | (Exited code, st') => (Exited code, st')
  end.

Definition raise {A} (e : Thrown) : Script A := fun st => (Raised e, st).

(** [try { body } catch (error) { handler }]: a process exit is not caught. *)
Definition try_script {A} (body : Script A) (handler : Thrown -> Script A)
    : Script A :=
  fun st =>
    match body st with
    | (Raised e, st') => handler e st'
    | r => r
    end.

Definition write_line (l : ConsoleLine) : Script unit :=
  fun st =>
    (Value tt,
     {| console := console st ++ [l]; queries := queries st;
        hashed := hashed st; now := now st |}).

Definition console_log (text : string) : Script unit := write_line (LogLine text).
Definition console_error (text : string) : Script unit :=
  write_line (ErrorLine text).
Definition console_error_with (text : string) (value : Thrown) : Script unit :=
  write_line (ErrorLineWith text value).

(** [process.exit(code)]. *)
Definition process_exit {A} (code : nat) : Script A :=
  fun st => (Exited code, st).

(** [new Date()]. *)
Definition new_Date : Script nat := fun st => (Value (now st), st).

(** The line-feed character of the template literals. *)
Definition nl : string := String (ascii_of_nat 10) EmptyString.

End Process.
Import Process.

(** *** Paths (node:path, POSIX) *)

Module NodePath.

(** [path.charCodeAt(path.length - 1)]. *)
Fixpoint last_char (s : string) : option ascii :=
  match s with
  | EmptyString => None
  | String c EmptyString => Some c
  | String _ s' => last_char s'
  end.

Definition is_sep (c : ascii) : bool := Ascii.eqb c "/".

(** The backward scan of [dirname] over the characters after the first,
    given last first; the head of [chars] sits at index
    [length chars].  [matchedSlash] holds while only trailing separators
    have been seen. *)
Fixpoint dirname_end (chars : list ascii) (matchedSlash : bool) : option nat :=
  match chars with
  | [] => None
  | c :: before =>
      if is_sep c then
        if matchedSlash then dirname_end before matchedSlash
        else Some (List.length chars)
      else dirname_end before false
  end.

(** [path.dirname(p)]. *)
Definition dirname (p : string) : string :=
  match p with
  | EmptyString => "."
  | String c rest =>
      let hasRoot := is_sep c in
      match dirname_end (rev (list_ascii_of_string rest)) true with
      | None => if hasRoot then "/" else "."
      | Some e =>
          if hasRoot && (e =? 1)%nat then "//" else substring 0 e p
      end
  end.

(** Resolution of [.] and [..] over the segments of a path; [done] holds
    the segments kept so far, last first. *)
Fixpoint normalize_segments (allowAboveRoot : bool) (done todo : list string)
    : list string :=
  match todo with
  | [] => rev done
  | seg :: todo' =>
      if String.eqb seg "" || String.eqb seg "." then
        normalize_segments allowAboveRoot done todo'
      else if String.eqb seg ".." then
        match done with
        | last :: done' =>
            if String.eqb last ".." then
              normalize_segments allowAboveRoot
                (if allowAboveRoot then ".." :: done else done) todo'
            else normalize_segments allowAboveRoot done' todo'
        | [] =>
            normalize_segments allowAboveRoot
              (if allowAboveRoot then [".."] else []) todo'
        end
      else normalize_segments allowAboveRoot (seg :: done) todo'
  end.

(** [path.normalize(p)]. *)
Definition normalize (p : string) : string :=
  match p with
  | EmptyString => "."
  | String c _ =>
      let isAbsolute := is_sep c in
      let trailingSeparator :=
        match last_char p with Some l => is_sep l | None => false end in
      let res :=
        String.concat "/"
          (normalize_segments (negb isAbsolute) [] (split "/" p)) in
      if String.eqb res "" then
        if isAbsolute then "/" else if trailingSeparator then "./" else "."
      else
        let res := if trailingSeparator then res +:+ "/" else res in
        if isAbsolute then "/" +:+ res else res
  end.

(** [path.join(...args)]: empty arguments are skipped. *)
Definition join (args : list string) : string :=
  match List.filter (fun a => negb (String.eqb a "")) args with
  | [] => "."
  | parts => normalize (String.concat "/" parts)
  end.

End NodePath.

(** *** scripts/fix-admin-user.ts *)

Module AdminScript.

Definition ADMIN_EMAIL : string := "nextceoai@gmail.com".
Definition ADMIN_PASSWORD : string := "Ali2009@".

(** The collaborators of the script.  The users table ([../shared/schema])
    and [hashPassword] ([../server/adminAuth]) are not among the sources
    and are taken as parameters: a row type with the columns the script
    reads (a nullable column reads as an option; the email and the id by
    the text a template literal shows for them), the answer of the
    database to each statement, and the answer of [hashPassword]. *)
Inductive Answer (Row : Type) :=
| Rows (rows : list Row)
| QueryFails (e : Thrown).
Arguments Rows {Row} rows.
Arguments QueryFails {Row} e.

Inductive HashAnswer :=
| Hashed (hash : string)
| HashFails (e : Thrown).

Class Persistence := {
  Row : Type;
  role_of : Row -> option string;
  passwordHash_of : Row -> option string;
  show_email : Row -> string;
  show_id : Row -> string;
  db_answer : Query -> Answer Row;
  hashPassword_answer : string -> HashAnswer
}.

Section WithPersistence.
Context `{Persistence}.

(** [await db. ... ]: the statement is recorded, then answered. *)
Definition db_run (q : Query) : Script (list Row) :=
  fun st =>
    let st' := {| console := console st; queries := queries st ++ [q];
                  hashed := hashed st; now := now st |} in
    match db_answer q with
    | Rows rows => (Value rows, st')
    | QueryFails e => (Raised e, st')
    end.

(** [await hashPassword(password)]. *)
Definition hashPassword (password : string) : Script string :=
  fun st =>
    let st' := {| console := console st; queries := queries st;
                  hashed := hashed st ++ [password]; now := now st |} in
    match hashPassword_answer password with
    | Hashed h => (Value h, st')
    | HashFails e => (Raised e, st')
    end.

(** Reading property [name] of the first row of a result: a [TypeError]
    when the result is empty and the row is [undefined]. *)
Definition property {A} (row : option Row) (get : Row -> A) (name : string)
    : Script A :=
  match row with
  | Some r => mret (get r)
  | None =>
      raise (ErrorObject
               ("Cannot read properties of undefined (reading '" +:+ name
                +:+ "')"))
  end.

(** A nullable text column inside a template literal. *)
Definition show_nullable (v : option string) : string :=
  match v with
  | Some s => s
  | None => "null"
  end.

Definition yes_no (v : option string) : string :=
  if truthy v then "yes" else "no".

Definition fixAdminUser : Script unit :=
  try_script
    (console_log "🔍 Checking admin user...";;
     selected ← db_run (SelectUsersByEmail ADMIN_EMAIL 1);
     match head selected with
     | Some existingUser =>
         console_log ("✅ User found: " +:+ ADMIN_EMAIL);;
         console_log ("   Current role: "
                      +:+ or_default (role_of existingUser) "not set");;
         console_log ("   Has password: "
                      +:+ yes_no (passwordHash_of existingUser));;
         passwordHash ← hashPassword ADMIN_PASSWORD;
         updatedAt ← new_Date;
         updated ← db_run (UpdateUsersByEmail ADMIN_EMAIL "admin"
                             passwordHash updatedAt);
         let updatedUser := head updated in
         console_log "✅ Updated user to admin role";;
         role ← property updatedUser role_of "role";
         console_log ("   New role: " +:+ show_nullable role);;
         hash ← property updatedUser passwordHash_of "passwordHash";
         console_log ("   Password hash set: " +:+ yes_no hash)
     | None =>
         console_log "❌ User not found. Creating new admin user...";;
         passwordHash ← hashPassword ADMIN_PASSWORD;
         inserted ← db_run (InsertUser ADMIN_EMAIL "Admin" "User" "admin"
                              passwordHash);
         let newUser := head inserted in
         console_log "✅ Created new admin user";;
         email ← property newUser show_email "email";
         console_log ("   Email: " +:+ email);;
         role ← property newUser role_of "role";
         console_log ("   Role: " +:+ show_nullable role);;
         id ← property newUser show_id "id";
         console_log ("   ID: " +:+ id)
     end;;
     console_log (nl +:+ "✅ Admin user setup complete!");;
     console_log ("   Email: " +:+ ADMIN_EMAIL);;
     console_log ("   Password: " +:+ ADMIN_PASSWORD);;
     console_log (nl +:+ "🔐 You can now login at /api/admin/login");;
     process_exit 0)
    (fun error =>
       console_error_with "❌ Error fixing admin user:" error;;
       process_exit 1).

End WithPersistence.
End AdminScript.

(** *** scripts/check-build.js *)

Module CheckBuild.

(** [existsSync] of node:fs, answered by the file system. *)
Class FileSystem := {
  existsSync : string -> bool
}.

Section WithFileSystem.
Context `{FileSystem}.

(** The module body, given [__filename], the path that [fileURLToPath]
    makes of [import.meta.url]. *)
Definition check_build (__filename : string) : Script unit :=
  let __dirname := NodePath.dirname __filename in
  let projectRoot := NodePath.join [__dirname; ".."] in
  let distIndexPath := NodePath.join [projectRoot; "dist"; "index.js"] in
  (if negb (existsSync distIndexPath) then
     console_error "ERROR: dist/index.js not found.";;
     console_error
       (quoted "Please run `npm run build` first to create the production build.");;
     process_exit 1
   else mret tt);;
  console_log "✓ dist/index.js found, starting server...".

End WithFileSystem.
End CheckBuild.

(** *** Vocabulary of the statements about the scripts *)

Import AdminScript.

(** The three statements the admin script can send. *)
Definition select_admin : Query := SelectUsersByEmail ADMIN_EMAIL 1.
Definition update_admin (hash : string) (time : nat) : Query :=
  UpdateUsersByEmail ADMIN_EMAIL "admin" hash time.
Definition insert_admin (hash : string) : Query :=
  InsertUser ADMIN_EMAIL "Admin" "User" "admin" hash.

Definition password_line : ConsoleLine :=
  LogLine ("   Password: " +:+ ADMIN_PASSWORD).

Definition failure_line (e : Thrown) : ConsoleLine :=
  ErrorLineWith "❌ Error fixing admin user:" e.

(** The error raised by reading a property of [undefined]. *)
Definition undefined_property (name : string) : Thrown :=
  ErrorObject
    ("Cannot read properties of undefined (reading '" +:+ name +:+ "')").

(** A database stub: rows are a role and a password hash. *)
Definition persistence_stub (answer : Query -> Answer (option string * option string))
    (hash : string -> HashAnswer) : Persistence :=
  {| Row := option string * option string;
     role_of := fst;
     passwordHash_of := snd;
     show_email := fun _ => ADMIN_EMAIL;
     show_id := fun _ => "1";
     db_answer := answer;
     hashPassword_answer := hash |}.

Definition start : State :=
  {| console := []; queries := []; hashed := []; now := 0 |}.

(** A path segment that names an entry: not empty, not [.] or [..], and
    free of separators. *)
Definition plain (s : string) : Prop :=
  s <> "" /\ s <> "." /\ s <> ".." /\ includes s "/" = false.

(** The absolute path made of the given segments; the empty list gives
    the empty prefix. *)
Fixpoint absolute (segs : list string) : string :=
  match segs with
  | [] => ""
  | s :: rest => "/" +:+ s +:+ absolute rest
  end.

(** A file system holding exactly the listed paths. *)
Definition fs_stub (present : list string) : CheckBuild.FileSystem :=
  {| CheckBuild.existsSync := fun p => existsb (String.eqb p) present |}.

(** A transport stub whose answer depends on the client. *)
Definition stub_per_client
    (answer : TransportOptions -> MailOptions -> CallResult) : Nodemailer :=
  {| Transporter := TransportOptions;
     createTransport := fun o => o;
     sendMail_answer := answer |}.

(** The two error lines and the success line of the build check. *)
Definition build_missing_lines : list ConsoleLine :=
  [ErrorLine "ERROR: dist/index.js not found.";
   ErrorLine
     (quoted "Please run `npm run build` first to create the production build.")].

Definition build_found_line : ConsoleLine :=
  LogLine "✓ dist/index.js found, starting server...".

(** Further stubs and environments for concrete runs. *)
Definition answer_by_security : TransportOptions -> MailOptions -> CallResult :=
  fun o _ =>
    if secure o then Returns Pending
    else Returns (SettlesAt (6 * 1000) (Fulfilled None)).

Definition opts_secure : TransportOptions :=
  {| host := Some "smtp.test"; port := Num 465; secure := true;
     auth_user := Some "a@test"; auth_pass := Some "x";
     connectionTimeout := 5000; socketTimeout := 5000;
     greetingTimeout := 5000 |}.

Definition opts_2525 : TransportOptions :=
  {| host := Some "smtp.test"; port := Num 2525; secure := false;
     auth_user := Some "a@test"; auth_pass := Some "x";
     connectionTimeout := 5000; socketTimeout := 5000;
     greetingTimeout := 5000 |}.

Definition env_2525 : gmap string string :=
  <["SMTP_PORT" := "2525"]> env_no_port.

Definition request_other_body : EmailOptions :=
  {| to := "client@test"; subject := "Hello"; html := "<p>Goodbye</p>" |}.

Definition db_down : Persistence :=
  persistence_stub (fun _ => QueryFails (ErrorObject "connection refused"))
    (fun _ => Hashed "hash").

Definition db_update_returns_nothing : Persistence :=
  persistence_stub
    (fun q => match q with
              | SelectUsersByEmail _ _ => Rows [(Some "user", None)]
              | _ => Rows []
              end)
    (fun _ => Hashed "hash").

(* ===================================================================== *)
(** ** The service at run time *)
(* ===================================================================== *)

(** [Thrown] describes caught values as TypeScript types them: once
    [error instanceof Error] holds, [error.message] is a string.  Nothing
    enforces that type at run time: a transport may throw, or reject with,
    an [Error] instance whose [message] field has been set to something
    else.  This module embeds [sendEmail] once more over such values, so
    that the [includes] call of the [catch] block can fail as it does in
    the engine. *)
Module Runtime.

(** A value of the [message] field that is not a string and has no
    [includes] method.  (A message that is an object with an [includes]
    method of its own, an array say, is not covered.) *)
Inductive NonString :=
| MUndefined
| MNull
| MBoolean (b : bool)
| MNumber (text : string)   (* a number, by the text [String()] gives it *)
| MObject.                  (* a plain object *)

(** What the [catch] block can receive. *)
Inductive Caught :=
| Typed (e : Thrown)
| ErrorNonString (message : NonString).

(** [error instanceof Error ? error.message : 'Unknown error']: a string,
    or the non-string message of an ill-typed [Error]. *)
Definition message_of (error : Caught) : string + NonString :=
  match error with
  | Typed (ErrorObject message) => inl message
  | Typed _ => inl "Unknown error"
  | ErrorNonString v => inr v
  end.

(** The log field of a message: a string as it is, [undefined] as an
    absent value, any other value by the text [String()] gives it. *)
Definition field_of (m : string + NonString) : option string :=
  match m with
  | inl s => Some s
  | inr MUndefined => None
  | inr MNull => Some "null"
  | inr (MBoolean b) => Some (if b then "true" else "false")
  | inr (MNumber text) => Some text
  | inr MObject => Some "[object Object]"
  end.

(** The [TypeError] of [errorMessage.includes('timeout')] when
    [errorMessage] is [v]. *)
Definition includes_TypeError (v : NonString) : Thrown :=
  ErrorObject
    match v with
    | MUndefined => "Cannot read properties of undefined (reading 'includes')"
    | MNull => "Cannot read properties of null (reading 'includes')"
    | _ => "errorMessage.includes is not a function"
    end.

Inductive Completion (A : Type) :=
| Normal (a : A)
| Abrupt (e : Caught)
| Hang.
Arguments Normal {A} a.
Arguments Abrupt {A} e.
Arguments Hang {A}.

Definition Js (A : Type) : Type := World -> Completion A * World.

#[export] Instance Js_ret : MRet Js := fun A a w => (Normal a, w).

#[export] Instance Js_bind : MBind Js := fun A B f c w =>
  match c w with
  | (Normal a, w') => f a w'
  | (Abrupt e, w') => (Abrupt e, w')
  | (Hang, w') => (Hang, w')
  end.

Definition throw {A} (e : Caught) : Js A := fun w => (Abrupt e, w).

Definition try_catch {A} (body : Js A) (handler : Caught -> Js A) : Js A :=
  fun w =>
    match body w with
    | (Abrupt e, w') => handler e w'
    | r => r
    end.

(** A computation over typed values, run here. *)
Definition lift {A} (c : Effects.Js A) : Js A :=
  fun w =>
    match c w with
    | (Effects.Normal a, w') => (Normal a, w')
    | (Effects.Abrupt e, w') => (Abrupt (Typed e), w')
    | (Effects.Hang, w') => (Hang, w')
    end.

Inductive Settlement :=
| Fulfilled (messageId : option string)
| Rejected (reason : Caught).

Inductive Promise :=
| SettlesAt (t : nat) (s : Settlement)
| Pending.

Definition reject_after (ms : nat) (e : Caught) : Promise :=
  SettlesAt ms (Rejected e).

Definition race2 (p q : Promise) : Promise :=
  match p, q with
  | Pending, _ => q
  | _, Pending => p
  | SettlesAt t _, SettlesAt u _ => if (t <=? u)%nat then p else q
  end.

Definition Promise_race (ps : list Promise) : Promise :=
  fold_right race2 Pending ps.

Definition await (p : Promise) : Js (option string) :=
  fun w =>
    match p with
    | Pending => (Hang, w)
    | SettlesAt t s =>
        let w' := {| env := env w; logs := logs w; ops := ops w;
                     clock := clock w + t |} in
        match s with
        | Fulfilled v => (Normal v, w')
        | Rejected e => (Abrupt e, w')
        end
    end.

Inductive CallResult :=
| Returns (p : Promise)
| ThrowsSync (e : Caught).

Class Nodemailer := {
  Transporter : Type;
  createTransport : TransportOptions -> Transporter;
  sendMail_answer : Transporter -> MailOptions -> CallResult
}.

Definition sendMail `{Nodemailer} (t : Transporter) (m : MailOptions)
    : Js Promise :=
  fun w =>
    let w' := {| env := env w; logs := logs w;
                 ops := ops w ++ [SendMailOp m]; clock := clock w |} in
    match sendMail_answer t m with
    | Returns p => (Normal p, w')
    | ThrowsSync e => (Abrupt e, w')
    end.

Section WithTransport.
Context `{Nodemailer}.

Record t := {
  transporter : option Transporter
}.

Definition sendEmail (this : t) (options : EmailOptions) : Js SendResult :=
  match transporter this with
  | None =>
      lift (logger_warn "Email service not configured - email not sent"
              [("to", Some (to options))]);;
      mret {| success := false; error := Some "Email service not configured" |}
  | Some transporter =>
      startTime ← lift Date_now;
      try_catch
        (env ← lift process_env;
         let mailOptions :=
           {| mail_from := env !! "SMTP_USER";
              mail_to := to options;
              mail_subject := subject options;
              mail_html := html options |} in
         lift (logger_info "Attempting to send email"
                 [("to", Some (to options));
                  ("subject", Some (subject options))]);;
         sendPromise ← sendMail transporter mailOptions;
         let timeoutPromise :=
           reject_after EMAIL_TIMEOUT_MS (Typed (ErrorObject timeout_reason)) in
         result ← await (Promise_race [sendPromise; timeoutPromise]);
         now ← lift Date_now;
         let duration := now - startTime in
         lift (logger_info "Email sent successfully"
                 [("to", Some (to options));
                  ("subject", Some (subject options));
                  ("duration", Some (show_nat duration +:+ "ms"));
                  ("messageId", result)]);;
         mret {| success := true; error := None |})
        (fun error =>
           now ← lift Date_now;
           let duration := now - startTime in
           let errorMessage := message_of error in
           lift (logger_error "Failed to send email"
                   [("to", Some (to options));
                    ("subject", Some (subject options));
                    ("error", field_of errorMessage);
                    ("duration", Some (show_nat duration +:+ "ms"))]);;
           match errorMessage with
           | inl errorMessage =>
               if includes errorMessage "timeout" then
                 mret {| success := false;
                         error := Some timeout_result_message |}
               else
                 mret {| success := false; error := Some errorMessage |}
           | inr v => throw (Typed (includes_TypeError v))
           end)
  end.

End WithTransport.

(** Typed answers, seen at run time. *)
Definition widen_settlement (s : Effects.Settlement) : Settlement :=
  match s with
  | Effects.Fulfilled v => Fulfilled v
  | Effects.Rejected e => Rejected (Typed e)
  end.

Definition widen_promise (p : Effects.Promise) : Promise :=
  match p with
  | Effects.SettlesAt t s => SettlesAt t (widen_settlement s)
  | Effects.Pending => Pending
  end.

Definition widen_call (c : Effects.CallResult) : CallResult :=
  match c with
  | Effects.Returns p => Returns (widen_promise p)
  | Effects.ThrowsSync e => ThrowsSync (Typed e)
  end.

Definition widen (N : Effects.Nodemailer) : Nodemailer :=
  {| Transporter := @Effects.Transporter N;
     createTransport := @Effects.createTransport N;
     sendMail_answer := fun t m => widen_call (Effects.sendMail_answer t m) |}.

(** The transport fails with [e] and the [catch] block receives it: the
    call throws on the spot, or its promise rejects before the timer
    fires. *)
Definition fails_with (answer : CallResult) (e : Caught) : Prop :=
  answer = ThrowsSync e \/
  exists n, answer = Returns (SettlesAt n (Rejected e)) /\ n < EMAIL_TIMEOUT_MS.

(** The same, a rejection at the very instant of the timer included. *)
Definition may_fail_with (answer : CallResult) (e : Caught) : Prop :=
  answer = ThrowsSync e \/
  exists n, answer = Returns (SettlesAt n (Rejected e)) /\ n <= EMAIL_TIMEOUT_MS.

(** How the [catch] block completes for the value it caught. *)
Definition handled (e : Caught) : Completion SendResult :=
  match message_of e with
  | inl m =>
      Normal {| success := false;
                error := Some (if includes m "timeout"
                               then timeout_result_message else m) |}
  | inr v => Abrupt (Typed (includes_TypeError v))
  end.

(** A transport stub of the run-time interface. *)
Definition stub (answer : MailOptions -> CallResult) : Nodemailer :=
  {| Transporter := TransportOptions;
     createTransport := fun o => o;
     sendMail_answer := fun _ => answer |}.

(** A transport that rejects at once with an [Error] whose message is
    the number 42. *)
Definition rejecting_with_number : MailOptions -> CallResult :=
  fun _ => Returns (SettlesAt 0 (Rejected (ErrorNonString (MNumber "42")))).

End Runtime.

(* ===================================================================== *)
(** ** Facts about the primitives *)
(* ===================================================================== *)

Ltac js_unfold :=
  unfold sendEmail, constructor, sendMail, await, try_catch, logger_info,
    logger_warn, logger_error, emit, process_env, Date_now, mbind, mret,
    Js_bind, Js_ret.

Lemma truthy_supplied (e : gmap string string) (k : string) :
  truthy (e !! k) = true <-> supplied e k.
Proof.
  unfold supplied, truthy. destruct (e !! k) as [v|].
  - destruct (String.eqb_spec v "") as [->|Hne]; simpl; split.
    + discriminate.
    + intros (v & Hv & Hne). congruence.
    + intros _. exists v. split; [reflexivity | assumption].
    + reflexivity.
  - split; [discriminate | intros (v & Hv & _); discriminate].
Qed.

Lemma truthy_false_cases (o : option string) :
  truthy o = false <-> o = None \/ o = Some "".
Proof.
  destruct o as [v|]; simpl.
  - destruct (String.eqb_spec v "") as [->|Hne]; simpl; split; auto.
    + discriminate.
    + intros [Hn|Hs]; [discriminate | congruence].
  - split; auto.
Qed.

Lemma supplied_present (e : gmap string string) (k : string) :
  supplied e k -> present e k.
Proof. intros (v & Hv & _). exists v. exact Hv. Qed.

(** *** Strings *)

Lemma append_nil (b : string) : "" +:+ b = b.
Proof. reflexivity. Qed.

Lemma append_cons (c : ascii) (a b : string) :
  String c a +:+ b = String c (a +:+ b).
Proof. reflexivity. Qed.

Lemma append_assoc (a b c : string) : (a +:+ b) +:+ c = a +:+ b +:+ c.
Proof.
  induction a as [|x a IH]; [reflexivity |].
  rewrite !append_cons. now f_equal.
Qed.

Lemma prefix_append (s rest : string) : String.prefix s (s +:+ rest) = true.
Proof.
  induction s as [|c s IH]; [now destruct rest |].
  rewrite append_cons. simpl.
  destruct (ascii_dec c c) as [_|Hne]; [exact IH | congruence].
Qed.

Lemma includes_unfold (s sub : string) :
  includes s sub =
    if String.prefix sub s then true
    else match s with
         | EmptyString => false
         | String _ s' => includes s' sub
         end.
Proof. destruct s; reflexivity. Qed.

Lemma includes_append_r (x y sub : string) :
  includes y sub = true -> includes (x +:+ y) sub = true.
Proof.
  intros Hy. induction x as [|c x IH]; [exact Hy |].
  rewrite append_cons, includes_unfold.
  destruct (String.prefix sub (String c (x +:+ y))); [reflexivity | exact IH].
Qed.

(** A string contains each of the pieces it is assembled from. *)
Lemma includes_middle (x y z : string) : includes (x +:+ y +:+ z) y = true.
Proof.
  apply includes_append_r. rewrite includes_unfold.
  now rewrite prefix_append.
Qed.

Lemma includes_comma_cons (c : ascii) (f : string) :
  includes (String c f) "," = false <-> c <> ","%char /\ includes f "," = false.
Proof.
  rewrite (includes_unfold (String c f)). cbn [String.prefix].
  destruct (ascii_dec "," c) as [<-|Hne].
  - destruct f; cbn; split; try discriminate; intros [Hc _]; congruence.
  - split; [intros Hf; split; [congruence | exact Hf] | intros [_ Hf]; exact Hf].
Qed.

(** [split] returns the first entry at the head, and every list has one. *)
Lemma first_entry_head (d f : string) :
  first_entry_of d f -> head (split "," d) = Some f.
Proof.
  revert d. induction f as [|c f IH]; intros d [Hno Hd].
  - destruct Hd as [-> | (rest & ->)]; reflexivity.
  - apply includes_comma_cons in Hno. destruct Hno as [Hc Hno].
    assert (exists d', d = String c d' /\ first_entry_of d' f) as (d' & -> & Hf).
    { destruct Hd as [-> | (rest & ->)].
      - exists f. split; [reflexivity |]. split; [exact Hno | now left].
      - exists (f +:+ "," +:+ rest). split; [reflexivity |].
        split; [exact Hno | right; now exists rest]. }
    specialize (IH d' Hf). cbn [split].
    destruct (Ascii.eqb_spec c ","); [congruence |].
    destruct (split "," d') as [|x rest]; [discriminate |].
    cbn in IH. injection IH as ->. reflexivity.
Qed.

Lemma first_entry_exists (d : string) : exists f, first_entry_of d f.
Proof.
  induction d as [|c d (f & Hno & Hd)].
  - exists "". split; [reflexivity | now left].
  - destruct (Ascii.eqb_spec c ",") as [-> | Hc].
    + exists "". split; [reflexivity | right; now exists d].
    + exists (String c f). split.
      * apply includes_comma_cons. now split.
      * destruct Hd as [-> | (rest & ->)]; [now left | right; now exists rest].
Qed.

(* ===================================================================== *)
(** ** Construction *)
(* ===================================================================== *)

Section Construction.
Context `{Nodemailer}.

(** The options the constructor passes to [createTransport]. *)
Lemma constructor_configured (w : World) :
  truthy (env w !! "SMTP_HOST") && truthy (env w !! "SMTP_USER")
    && truthy (env w !! "SMTP_PASS") = true ->
  exists opts w',
    constructor w = (Normal {| transporter := Some (createTransport opts) |}, w')
    /\ host opts = env w !! "SMTP_HOST"
    /\ port opts = parseInt (or_default (env w !! "SMTP_PORT") "587")
    /\ secure opts = strict_eq (env w !! "SMTP_PORT") "465"
    /\ auth_user opts = env w !! "SMTP_USER"
    /\ auth_pass opts = env w !! "SMTP_PASS"
    /\ connectionTimeout opts = EMAIL_TIMEOUT_MS
    /\ socketTimeout opts = EMAIL_TIMEOUT_MS
    /\ greetingTimeout opts = EMAIL_TIMEOUT_MS
    /\ env w' = env w /\ ops w' = ops w.
Proof.
  intros Hc. js_unfold. cbn. rewrite Hc. cbn.
  eexists _, _. split; [reflexivity |]. cbn. repeat split.
Qed.

Lemma constructor_unconfigured (w : World) :
  truthy (env w !! "SMTP_HOST") && truthy (env w !! "SMTP_USER")
    && truthy (env w !! "SMTP_PASS") = false ->
  exists w',
    constructor w = (Normal {| transporter := None |}, w')
    /\ logs w' = (logs w ++ [warn_unconfigured_construction])%list
    /\ env w' = env w /\ ops w' = ops w.
Proof.
  intros Hc. js_unfold. cbn. rewrite Hc. cbn.
  eexists. split; [reflexivity |]. cbn. repeat split.
Qed.

Lemma all_truthy_supplied (e : gmap string string) :
  truthy (e !! "SMTP_HOST") && truthy (e !! "SMTP_USER")
    && truthy (e !! "SMTP_PASS") = true
  <-> supplied e "SMTP_HOST" /\ supplied e "SMTP_USER" /\ supplied e "SMTP_PASS".
Proof.
  rewrite !andb_true_iff, !truthy_supplied. tauto.
Qed.

(** C5 (as amended).  The constructor always returns; the service it
    returns holds a transport client exactly when SMTP_HOST, SMTP_USER
    and SMTP_PASS are all set to non-empty strings.  Otherwise (a variable
    missing or empty) no client is built and one warning is logged.  A
    client is never built from part of the credentials: when there is
    one, its host, user and secret are all non-empty. *)
Theorem C5_construction_binary (w : World) :
  exists this w',
    constructor w = (Normal this, w')
    /\ (is_Some (transporter this) <->
        supplied (env w) "SMTP_HOST" /\ supplied (env w) "SMTP_USER"
        /\ supplied (env w) "SMTP_PASS")
    /\ (transporter this = None ->
        logs w' = (logs w ++ [warn_unconfigured_construction])%list)
    /\ (forall tr, transporter this = Some tr ->
        exists opts h u s,
          tr = createTransport opts
          /\ host opts = Some h /\ h <> ""
          /\ auth_user opts = Some u /\ u <> ""
          /\ auth_pass opts = Some s /\ s <> "").
Proof.
  destruct (truthy (env w !! "SMTP_HOST") && truthy (env w !! "SMTP_USER")
            && truthy (env w !! "SMTP_PASS")) eqn:Hc.
  - destruct (constructor_configured w Hc)
      as (opts & w' & Hrun & Hh & _ & _ & Hu & Hp & _).
    apply all_truthy_supplied in Hc.
    destruct Hc as ((h & Hh' & Hhne) & (u & Hu' & Hune) & (s & Hs' & Hsne)).
    eexists _, w'. split; [exact Hrun |]. cbn. split; [| split].
    + split; [intros _ | intros _; eexists; reflexivity].
      repeat split; eexists; eauto.
    + discriminate.
    + intros tr [= <-]. exists opts, h, u, s.
      rewrite Hh, Hu, Hp. auto 10.
  - destruct (constructor_unconfigured w Hc) as (w' & Hrun & Hlog & _).
    eexists _, w'. split; [exact Hrun |]. cbn. split; [| split].
    + split; [intros [tr [=]] |].
      intros Hs. apply all_truthy_supplied in Hs. congruence.
    + intros _. exact Hlog.
    + intros tr [=].
Qed.

(** C8.  When the constructor builds a transport client, the port is 587
    if SMTP_PORT is unset, the secure flag is true exactly when SMTP_PORT
    is the string 465, and the connection, socket and greeting timeouts
    are all 5000 ms. *)
Theorem C8_transport_options (w w' : World) (this : t) (tr : Transporter) :
  constructor w = (Normal this, w') ->
  transporter this = Some tr ->
  exists opts,
    tr = createTransport opts
    /\ (env w !! "SMTP_PORT" = None -> port opts = Num 587)
    /\ (secure opts = true <-> env w !! "SMTP_PORT" = Some "465")
    /\ connectionTimeout opts = 5000
    /\ socketTimeout opts = 5000
    /\ greetingTimeout opts = 5000.
Proof.
  intros Hrun Htr.
  destruct (truthy (env w !! "SMTP_HOST") && truthy (env w !! "SMTP_USER")
            && truthy (env w !! "SMTP_PASS")) eqn:Hc.
  - destruct (constructor_configured w Hc)
      as (opts & w1 & Hrun' & _ & Hport & Hsec & _ & _ & Hct & Hst & Hgt & _).
    rewrite Hrun' in Hrun. injection Hrun as <- <-. cbn in Htr.
    injection Htr as <-. exists opts. split; [reflexivity |].
    rewrite Hport, Hsec, Hct, Hst, Hgt. repeat split.
    + intros ->. reflexivity.
    + unfold strict_eq. destruct (env w !! "SMTP_PORT") as [v|]; [| discriminate].
      intros Hv. apply String.eqb_eq in Hv. congruence.
    + intros ->. reflexivity.
  - destruct (constructor_unconfigured w Hc) as (w1 & Hrun' & _).
    rewrite Hrun' in Hrun. injection Hrun as <- <-. discriminate.
Qed.

End Construction.

(* ===================================================================== *)
(** ** Sending *)
(* ===================================================================== *)

#[local] Arguments includes : simpl never.
#[local] Arguments show_nat : simpl never.

Lemma timeout_reason_has_timeout : includes timeout_reason "timeout" = true.
Proof. vm_compute. reflexivity. Qed.

Lemma unknown_error_no_timeout : includes "Unknown error" "timeout" = false.
Proof. vm_compute. reflexivity. Qed.

Lemma race_timer_wins (p : Promise) :
  settles_by EMAIL_TIMEOUT_MS p = false -> Promise_race [p; timer] = timer.
Proof.
  destruct p as [t s|]; cbn; [| reflexivity].
  intros ->. reflexivity.
Qed.

Lemma race_transport_wins (t : nat) (s : Settlement) :
  t < EMAIL_TIMEOUT_MS -> Promise_race [SettlesAt t s; timer] = SettlesAt t s.
Proof.
  intros Ht. cbn.
  destruct (Nat.leb_spec t EMAIL_TIMEOUT_MS) as [_|Hgt]; [reflexivity | lia].
Qed.

Section Sending.
Context `{Nodemailer}.
Variables (this : t) (options : EmailOptions) (w : World).

Lemma sendEmail_unconfigured :
  transporter this = None ->
  sendEmail this options w =
    (Normal {| success := false; error := Some "Email service not configured" |},
     {| env := env w; logs := logs w ++ [warn_unconfigured_send options];
        ops := ops w; clock := clock w |}).
Proof. intros Ht. unfold sendEmail. rewrite Ht. reflexivity. Qed.

Lemma sendEmail_thrown (tr : Transporter) (e : Thrown) :
  transporter this = Some tr ->
  sendMail_answer tr (outgoing w options) = ThrowsSync e ->
  exists w', sendEmail this options w = (Normal (failure_of e), w')
    /\ ops w' = ops (after_call w options) /\ clock w' = clock w.
Proof.
  intros Ht Ha. unfold outgoing in Ha. js_unfold. rewrite Ht. cbn.
  rewrite Ha. cbn. unfold failure_of.
  destruct e as [m| |]; cbn; rewrite ?unknown_error_no_timeout;
    try destruct (includes m "timeout");
    (eexists; split; [reflexivity | split; reflexivity]).
Qed.

Lemma sendEmail_settled (tr : Transporter) (p : Promise) (t : nat) (s : Settlement) :
  transporter this = Some tr ->
  sendMail_answer tr (outgoing w options) = Returns p ->
  Promise_race [p; timer] = SettlesAt t s ->
  exists w',
    sendEmail this options w =
      (Normal (match s with
               | Fulfilled _ => {| success := true; error := None |}
               | Rejected e => failure_of e
               end), w')
    /\ ops w' = ops (after_call w options) /\ clock w' = clock w + t.
Proof.
  intros Ht Ha Hr. unfold outgoing in Ha. unfold timer in Hr.
  js_unfold. rewrite Ht. cbn. rewrite Ha. cbn.
  cbn in Hr. rewrite Hr. unfold failure_of.
  destruct s as [v|[m| |]]; cbn; rewrite ?unknown_error_no_timeout;
    try destruct (includes m "timeout");
    (eexists; split; [reflexivity | split; reflexivity]).
Qed.

Lemma sendEmail_caught (tr : Transporter) (e : Thrown) :
  transporter this = Some tr ->
  transport_fails_with (sendMail_answer tr (outgoing w options)) e ->
  exists w', sendEmail this options w = (Normal (failure_of e), w')
    /\ ops w' = ops (after_call w options).
Proof.
  intros Ht [Ha | (t & Ha & Hlt)].
  - destruct (sendEmail_thrown tr e Ht Ha) as (w' & Hrun & Hops & _). eauto.
  - destruct (sendEmail_settled tr _ t (Rejected e) Ht Ha
                (race_transport_wins t _ Hlt)) as (w' & Hrun & Hops & _).
    eauto.
Qed.

(** C1.  For a configured service whose transport call returns a
    promise, the call is raced against a 5000 ms timer and the first to
    settle decides: a transport promise that settles before the timer
    gives success when fulfilled and failure when rejected, at the moment
    it settles; a transport promise that does not settle within 5000 ms
    (later, or never) loses to the timer, and [sendEmail] returns, 5000 ms
    after the call, success false with a message that names the 5000 ms
    bound and says the email may still be queued for delivery.  The only
    operation made on the transport client is the [sendMail] call: the
    losing operation is not cancelled. *)
Theorem C1_timeout_race (tr : Transporter) (p : Promise) :
  transporter this = Some tr ->
  sendMail_answer tr (outgoing w options) = Returns p ->
  EMAIL_TIMEOUT_MS = 5000
  /\ (forall t v, p = SettlesAt t (Fulfilled v) -> t < EMAIL_TIMEOUT_MS ->
      exists w',
        sendEmail this options w
          = (Normal {| success := true; error := None |}, w')
        /\ clock w' = clock w + t)
  /\ (forall t e, p = SettlesAt t (Rejected e) -> t < EMAIL_TIMEOUT_MS ->
      exists r w',
        sendEmail this options w = (Normal r, w')
        /\ success r = false /\ clock w' = clock w + t)
  /\ (settles_by EMAIL_TIMEOUT_MS p = false ->
      Promise_race [p; timer] = timer
      /\ exists w',
        sendEmail this options w
          = (Normal {| success := false;
                       error := Some timeout_result_message |}, w')
        /\ clock w' = clock w + EMAIL_TIMEOUT_MS
        /\ ops w' = (ops w ++ [SendMailOp (outgoing w options)])%list)
  /\ includes timeout_result_message "5000ms" = true
  /\ includes timeout_result_message "may still be queued for delivery" = true.
Proof.
  intros Ht Ha. split; [reflexivity |]. split; [| split; [| split]].
  - intros t v -> Hlt.
    destruct (sendEmail_settled tr _ t (Fulfilled v) Ht Ha
                (race_transport_wins t _ Hlt)) as (w' & Hrun & _ & Hclk).
    eauto.
  - intros t e -> Hlt.
    destruct (sendEmail_settled tr _ t (Rejected e) Ht Ha
                (race_transport_wins t _ Hlt)) as (w' & Hrun & _ & Hclk).
    eexists _, w'. split; [exact Hrun |]. split; [reflexivity | exact Hclk].
  - intros Hlate. pose proof (race_timer_wins p Hlate) as Hrace.
    split; [exact Hrace |].
    destruct (sendEmail_settled tr p EMAIL_TIMEOUT_MS
                (Rejected (ErrorObject timeout_reason)) Ht Ha Hrace)
      as (w' & Hrun & Hops & Hclk).
    exists w'. unfold failure_of in Hrun. cbn [caught_message] in Hrun.
    rewrite timeout_reason_has_timeout in Hrun. auto.
  - split; vm_compute; reflexivity.
Qed.

(** C2.  A service that holds no transport client answers every request
    with success false and the error "Email service not configured", logs
    one warning that carries the recipient, and makes no transport call
    (and does not wait). *)
Theorem C2_unconfigured_send :
  transporter this = None ->
  exists w',
    sendEmail this options w
      = (Normal {| success := false;
                   error := Some "Email service not configured" |}, w')
    /\ logs w' = (logs w ++ [warn_unconfigured_send options])%list
    /\ In ("to", Some (to options)) (log_fields (warn_unconfigured_send options))
    /\ log_level (warn_unconfigured_send options) = LWarn
    /\ ops w' = ops w
    /\ clock w' = clock w.
Proof.
  intros Ht. eexists. split; [apply sendEmail_unconfigured, Ht |].
  cbn. auto 10.
Qed.

(** C3 (as amended).  When the transport call fails, by throwing or by
    rejecting before the timer fires, with an [Error] whose message [m]
    does not contain the substring "timeout", [sendEmail] returns success
    false with error [m] unchanged; "Invalid recipient" is such a message.
    A failure whose message contains "timeout" is reported with the
    service's own timed-out message instead. *)
Theorem C3_transport_failure_message (tr : Transporter) (m : string) :
  transporter this = Some tr ->
  transport_fails_with (sendMail_answer tr (outgoing w options)) (ErrorObject m) ->
  (includes m "timeout" = false ->
   exists w', sendEmail this options w
              = (Normal {| success := false; error := Some m |}, w'))
  /\ (includes m "timeout" = true ->
      exists w', sendEmail this options w
                 = (Normal {| success := false;
                              error := Some timeout_result_message |}, w'))
  /\ includes "Invalid recipient" "timeout" = false.
Proof.
  intros Ht Hf.
  destruct (sendEmail_caught tr _ Ht Hf) as (w' & Hrun & _).
  unfold failure_of in Hrun. cbn [caught_message] in Hrun.
  split; [| split].
  - intros Hm. rewrite Hm in Hrun. eauto.
  - intros Hm. rewrite Hm in Hrun. eauto.
  - vm_compute. reflexivity.
Qed.

(** As long as every caught [Error] carries a string message, as [Thrown]
    has it: whatever the request, the state of the service and the answer
    of the transport (a promise that fulfils, rejects or never settles, or
    a call that throws), [sendEmail] completes normally with a result
    value.  For messages that are not strings see [Runtime]. *)
Lemma sendEmail_typed_returns :
  exists r w', sendEmail this options w = (Normal r, w').
Proof.
  destruct (transporter this) as [tr|] eqn:Ht.
  - destruct (sendMail_answer tr (outgoing w options)) as [p|e] eqn:Ha.
    + destruct (Promise_race [p; timer]) as [t s|] eqn:Hr.
      * destruct (sendEmail_settled tr p t s Ht Ha Hr) as (w' & Hrun & _).
        eauto.
      * destruct p as [t s|]; cbn in Hr; [| discriminate].
        destruct (t <=? EMAIL_TIMEOUT_MS)%nat; discriminate.
    + destruct (sendEmail_thrown tr e Ht Ha) as (w' & Hrun & _). eauto.
  - rewrite (sendEmail_unconfigured Ht). eauto.
Qed.

(** C9.  When the transport call fails with a value that is not an
    [Error] instance (a string, a plain object, even one with a message
    field), [sendEmail] returns success false with the error "Unknown
    error". *)
Theorem C9_non_error_rejection (tr : Transporter) (e : Thrown) :
  transporter this = Some tr ->
  instanceof_Error e = false ->
  transport_fails_with (sendMail_answer tr (outgoing w options)) e ->
  exists w',
    sendEmail this options w
      = (Normal {| success := false; error := Some "Unknown error" |}, w').
Proof.
  intros Ht He Hf.
  destruct (sendEmail_caught tr e Ht Hf) as (w' & Hrun & _).
  exists w'. rewrite Hrun. unfold failure_of.
  destruct e as [m| |]; [discriminate | |]; cbn [caught_message];
    rewrite unknown_error_no_timeout; reflexivity.
Qed.

End Sending.

(* ===================================================================== *)
(** ** Sender identity *)
(* ===================================================================== *)

Section Sender.
Context `{Nodemailer}.

Lemma sendEmail_configured_ops (this : t) (options : EmailOptions) (w : World)
    (tr : Transporter) :
  transporter this = Some tr ->
  exists r w',
    sendEmail this options w = (Normal r, w')
    /\ ops w' = (ops w ++ [SendMailOp (outgoing w options)])%list.
Proof.
  intros Ht.
  destruct (sendMail_answer tr (outgoing w options)) as [p|e] eqn:Ha.
  - destruct (Promise_race [p; timer]) as [n s|] eqn:Hr.
    + destruct (sendEmail_settled this options w tr p n s Ht Ha Hr)
        as (w' & Hrun & Hops & _). eauto.
    + destruct p as [n s|]; cbn in Hr; [| discriminate].
      destruct (n <=? EMAIL_TIMEOUT_MS)%nat; discriminate.
  - destruct (sendEmail_thrown this options w tr e Ht Ha)
      as (w' & Hrun & Hops & _). eauto.
Qed.

(** C6.  Every [sendEmail] call of a configured service hands exactly
    one message to the transport; its from-address is the SMTP_USER
    variable of the environment, and its other fields are the caller's
    recipient, subject and body, so nothing in the request can change the
    sender.  With the environment the service was constructed in, that
    from-address is the account user the transport client was built
    with. *)
Theorem C6_sender_identity (w0 w1 : World) (this : t) (options : EmailOptions)
    (w : World) :
  constructor w0 = (Normal this, w1) ->
  is_Some (transporter this) ->
  exists r w' m,
    sendEmail this options w = (Normal r, w')
    /\ ops w' = (ops w ++ [SendMailOp m])%list
    /\ mail_from m = env w !! "SMTP_USER"
    /\ mail_to m = to options
    /\ mail_subject m = subject options
    /\ mail_html m = html options
    /\ (env w = env w0 ->
        exists opts u,
          transporter this = Some (createTransport opts)
          /\ auth_user opts = Some u /\ u <> ""
          /\ mail_from m = Some u).
Proof.
  intros Hctor [tr Ht].
  destruct (sendEmail_configured_ops this options w tr Ht) as (r & w' & Hrun & Hops).
  exists r, w', (outgoing w options). split; [exact Hrun |].
  split; [exact Hops |]. cbn. repeat split.
  intros Henv.
  destruct (truthy (env w0 !! "SMTP_HOST") && truthy (env w0 !! "SMTP_USER")
            && truthy (env w0 !! "SMTP_PASS")) eqn:Hc.
  - destruct (constructor_configured w0 Hc)
      as (opts & w2 & Hrun' & _ & _ & _ & Hu & _).
    rewrite Hrun' in Hctor. injection Hctor as <- <-.
    apply all_truthy_supplied in Hc. destruct Hc as (_ & (u & Hu' & Hne) & _).
    exists opts, u. rewrite Hu, Henv, Hu'. auto.
  - destruct (constructor_unconfigured w0 Hc) as (w2 & Hrun' & _).
    rewrite Hrun' in Hctor. injection Hctor as <- <-. discriminate.
Qed.

End Sender.

(* ===================================================================== *)
(** ** The approval email *)
(* ===================================================================== *)

Lemma html_after_password_link : html_after_password = before_link +:+ link_open.
Proof. vm_compute. reflexivity. Qed.

Lemma html_tail_link : html_tail = "/login" +:+ link_close +:+ after_link.
Proof. vm_compute. reflexivity. Qed.

Lemma approval_html_link (base email firstName password : string) :
  approval_html base email firstName password =
    (html_head +:+ firstName +:+ html_after_firstName +:+ email
     +:+ html_after_email +:+ password +:+ before_link)
    +:+ (link_open +:+ base +:+ "/login" +:+ link_close)
    +:+ after_link.
Proof.
  unfold approval_html. rewrite html_after_password_link, html_tail_link.
  now rewrite !append_assoc.
Qed.

Lemma truthy_nonempty (v : string) : v <> "" -> truthy (Some v) = true.
Proof.
  intros Hne. simpl. destruct (String.eqb_spec v ""); [congruence | reflexivity].
Qed.

Lemma loginUrl_frontend (e : gmap string string) (u : string) :
  e !! "FRONTEND_URL" = Some u -> u <> "" -> loginUrl_of e = u.
Proof.
  intros Hu Hne. unfold loginUrl_of, or_else, or_default.
  rewrite Hu, !(truthy_nonempty u Hne). reflexivity.
Qed.

Lemma loginUrl_domains (e : gmap string string) (d f : string) :
  truthy (e !! "FRONTEND_URL") = false ->
  e !! "REPLIT_DOMAINS" = Some d -> first_entry_of d f -> f <> "" ->
  loginUrl_of e = f.
Proof.
  intros Hu Hd Hf Hne. unfold loginUrl_of, or_else, or_default, first_entry.
  rewrite Hu, Hd, (first_entry_head d f Hf), (truthy_nonempty f Hne).
  reflexivity.
Qed.

Lemma loginUrl_default (e : gmap string string) :
  truthy (e !! "FRONTEND_URL") = false ->
  (forall d f, e !! "REPLIT_DOMAINS" = Some d -> first_entry_of d f -> f = "") ->
  loginUrl_of e = default_login_base.
Proof.
  intros Hu Hd. unfold loginUrl_of, or_else, or_default, first_entry.
  rewrite Hu. destruct (e !! "REPLIT_DOMAINS") as [d|]; [| reflexivity].
  destruct (first_entry_exists d) as (f & Hf).
  rewrite (first_entry_head d f Hf), (Hd d f eq_refl Hf). reflexivity.
Qed.

Lemma not_supplied_truthy (e : gmap string string) (k : string) :
  ~ supplied e k -> truthy (e !! k) = false.
Proof.
  intros Hn. destruct (truthy (e !! k)) eqn:Ht; [| reflexivity].
  apply truthy_supplied in Ht. contradiction.
Qed.

Section Approval.
Context `{Nodemailer}.
Variables (this : t) (email firstName password : string) (w : World).

Lemma sendBeauticianApprovalEmail_delegates :
  sendBeauticianApprovalEmail this email firstName password w =
    sendEmail this
      {| to := email;
         subject := approval_subject;
         html := approval_html (loginUrl_of (env w)) email firstName password |}
      w.
Proof. reflexivity. Qed.

(** C7.  [sendBeauticianApprovalEmail] hands [sendEmail] a request
    addressed to the given email, with the fixed subject and an HTML body
    that contains the given email and password unchanged and an anchor
    whose target is the link base followed by /login.  The base is
    FRONTEND_URL when that holds a value; otherwise the first entry of
    the comma-separated REPLIT_DOMAINS when that holds a value; otherwise
    the literal https://www.kosmospace.com. *)
Theorem C7_approval_email :
  let base := loginUrl_of (env w) in
  let body := approval_html base email firstName password in
  sendBeauticianApprovalEmail this email firstName password w
    = sendEmail this
        {| to := email;
           subject := "Welcome to Kosmospace - Your Application Has Been Approved!";
           html := body |} w
  /\ includes body email = true
  /\ includes body password = true
  /\ includes body (link_open +:+ base +:+ "/login" +:+ link_close) = true
  /\ (forall u, env w !! "FRONTEND_URL" = Some u -> u <> "" -> base = u)
  /\ (forall d f,
        ~ supplied (env w) "FRONTEND_URL" ->
        env w !! "REPLIT_DOMAINS" = Some d -> first_entry_of d f -> f <> "" ->
        base = f)
  /\ (~ supplied (env w) "FRONTEND_URL" ->
      (forall d f, env w !! "REPLIT_DOMAINS" = Some d -> first_entry_of d f ->
                   f = "") ->
      base = "https://www.kosmospace.com").
Proof.
  intros base body. split; [apply sendBeauticianApprovalEmail_delegates |].
  split; [| split; [| split; [| split; [| split]]]].
  - unfold body, approval_html.
    rewrite <- (append_assoc html_head), <- (append_assoc (html_head +:+ _)).
    apply includes_middle.
  - unfold body, approval_html.
    rewrite <- (append_assoc html_head), <- (append_assoc (html_head +:+ _)),
      <- (append_assoc (_ +:+ html_after_firstName)),
      <- (append_assoc (_ +:+ email)).
    apply includes_middle.
  - unfold body. rewrite approval_html_link. apply includes_middle.
  - intros u Hu Hne. apply (loginUrl_frontend _ u Hu Hne).
  - intros d f Hn Hd Hf Hne.
    apply (loginUrl_domains _ d f (not_supplied_truthy _ _ Hn) Hd Hf Hne).
  - intros Hn Hd. apply (loginUrl_default _ (not_supplied_truthy _ _ Hn) Hd).
Qed.

(** C10.  The fallback tests truthiness, not presence.  A FRONTEND_URL
    set to the empty string is passed over and the first entry of
    REPLIT_DOMAINS is used; with no usable FRONTEND_URL, a REPLIT_DOMAINS
    whose first entry is empty (an empty list, or one that starts with a
    comma) gives the literal default.  The link in the body handed to
    [sendEmail] is the chosen base followed by /login. *)
Theorem C10_link_base_truthiness :
  let base := loginUrl_of (env w) in
  (forall d f,
     env w !! "FRONTEND_URL" = Some "" ->
     env w !! "REPLIT_DOMAINS" = Some d -> first_entry_of d f -> f <> "" ->
     base = f)
  /\ (forall d,
        env w !! "FRONTEND_URL" = None \/ env w !! "FRONTEND_URL" = Some "" ->
        env w !! "REPLIT_DOMAINS" = Some d ->
        d = "" \/ (exists rest, d = "," +:+ rest) ->
        base = "https://www.kosmospace.com")
  /\ (exists pre post,
        approval_html base email firstName password
          = pre +:+ (link_open +:+ (base +:+ "/login") +:+ link_close) +:+ post)
  /\ sendBeauticianApprovalEmail this email firstName password w
     = sendEmail this
         {| to := email; subject := approval_subject;
            html := approval_html base email firstName password |} w.
Proof.
  intros base. split; [| split; [| split]].
  - intros d f Hu Hd Hf Hne.
    apply (loginUrl_domains _ d f); auto. now rewrite Hu.
  - intros d Hu Hd Hfirst.
    apply loginUrl_default; [now apply truthy_false_cases |].
    intros d' f Hd' Hf. rewrite Hd in Hd'. injection Hd' as <-.
    assert (first_entry_of d "") as Hempty.
    { split; [reflexivity |].
      destruct Hfirst as [-> | (rest & ->)]; [now left | right; now exists rest]. }
    apply first_entry_head in Hf, Hempty. congruence.
  - exists (html_head +:+ firstName +:+ html_after_firstName +:+ email
            +:+ html_after_email +:+ password +:+ before_link), after_link.
    rewrite approval_html_link, (append_assoc base). reflexivity.
  - apply sendBeauticianApprovalEmail_delegates.
Qed.

End Approval.

(* ===================================================================== *)
(** ** Concrete runs *)
(* ===================================================================== *)

(** Construction over [env_no_port] yields the test service. *)
Lemma constructor_env_no_port :
  constructor (H := stub hung) (boot env_no_port)
  = (Normal (service_test hung), snd (constructor (H := stub hung) (boot env_no_port))).
Proof. vm_compute. reflexivity. Defined.

(** The transport resolves after 6000 ms: failure is reported at 5000 ms. *)
Lemma C1_witness :
  transporter (service_test slow) = Some opts_test
  /\ slow (outgoing (boot env_test) request)
     = Returns (SettlesAt (6 * 1000) (Fulfilled (Some "<1@smtp.test>")))
  /\ fst (sendEmail (service_test slow) request (boot env_test))
     = Normal {| success := false; error := Some timeout_result_message |}
  /\ clock (snd (sendEmail (service_test slow) request (boot env_test))) = 5000.
Proof.
  split; [reflexivity |]. split; [reflexivity |].
  destruct (C1_timeout_race (H := stub slow) (service_test slow) request
              (boot env_test) opts_test _ eq_refl eq_refl)
    as (_ & _ & _ & Hlate & _).
  destruct (Hlate eq_refl) as (_ & w' & Hrun & Hclk & _).
  rewrite Hrun. split; [reflexivity | exact Hclk].
Defined.

(** An unconfigured service over an empty environment. *)
Lemma C2_witness :
  transporter unconfigured_service = None
  /\ fst (sendEmail unconfigured_service request (boot ∅))
     = Normal {| success := false; error := Some "Email service not configured" |}
  /\ ops (snd (sendEmail unconfigured_service request (boot ∅))) = [].
Proof.
  split; [reflexivity |].
  destruct (C2_unconfigured_send (H := stub hung) unconfigured_service request
              (boot ∅) eq_refl)
    as (w' & Hrun & _ & _ & _ & Hops & _).
  rewrite Hrun. split; [reflexivity | exact Hops].
Defined.

Lemma rejecting_fails (m : string) (mail : MailOptions) :
  transport_fails_with (rejecting m mail) (ErrorObject m).
Proof.
  right. exists 0. split; [reflexivity |]. unfold EMAIL_TIMEOUT_MS. lia.
Defined.

(** The transport rejects at once with Invalid recipient. *)
Lemma C3_witness :
  transporter (service_test (rejecting "Invalid recipient")) = Some opts_test
  /\ transport_fails_with
       (rejecting "Invalid recipient" (outgoing (boot env_test) request))
       (ErrorObject "Invalid recipient")
  /\ fst (sendEmail (service_test (rejecting "Invalid recipient")) request
            (boot env_test))
     = Normal {| success := false; error := Some "Invalid recipient" |}.
Proof.
  split; [reflexivity |]. split; [apply rejecting_fails |].
  destruct (C3_transport_failure_message (H := stub (rejecting "Invalid recipient"))
              (service_test _) request (boot env_test) opts_test
              "Invalid recipient" eq_refl (rejecting_fails _ _))
    as (Hverbatim & _ & Hno).
  destruct (Hverbatim Hno) as (w' & Hrun). rewrite Hrun. reflexivity.
Defined.

(** C3 as stated fails: a transport that rejects at once with the error
    "Connection timeout" (not the service's own timer) does not get its
    message passed through; the service's timed-out message is returned
    in its place. *)
Lemma C3_counterexample :
  transport_fails_with
    (rejecting "Connection timeout" (outgoing (boot env_test) request))
    (ErrorObject "Connection timeout")
  /\ "Connection timeout" <> timeout_reason
  /\ fst (sendEmail (service_test (rejecting "Connection timeout")) request
            (boot env_test))
     = Normal {| success := false; error := Some timeout_result_message |}
  /\ fst (sendEmail (service_test (rejecting "Connection timeout")) request
            (boot env_test))
     <> Normal {| success := false; error := Some "Connection timeout" |}.
Proof.
  split; [apply rejecting_fails |].
  split; [intros Heq; vm_compute in Heq; discriminate |].
  split; [vm_compute; reflexivity |].
  intros Heq. vm_compute in Heq. discriminate.
Qed.

(** C5 as stated fails: with SMTP_HOST present but empty and the other
    two variables set, all three are present in the environment, yet the
    constructor builds no transport client. *)
Lemma C5_counterexample :
  present env_empty_host "SMTP_HOST"
  /\ present env_empty_host "SMTP_USER"
  /\ present env_empty_host "SMTP_PASS"
  /\ exists w',
       constructor (H := stub hung) (boot env_empty_host)
       = (Normal {| transporter := None |}, w').
Proof.
  split; [| split; [| split]]; try (eexists; vm_compute; reflexivity).
Qed.

(** The service constructed over [env_no_port] sends from a@test. *)
Lemma C6_witness :
  constructor (H := stub hung) (boot env_no_port)
  = (Normal (service_test hung), snd (constructor (H := stub hung) (boot env_no_port)))
  /\ is_Some (transporter (service_test hung))
  /\ exists m,
       ops (snd (sendEmail (service_test hung) request (boot env_no_port)))
       = [SendMailOp m]
       /\ mail_from m = Some "a@test".
Proof.
  split; [exact constructor_env_no_port |].
  split; [eexists; reflexivity |].
  destruct (C6_sender_identity (H := stub hung) (boot env_no_port) _
              (service_test hung) request (boot env_no_port)
              constructor_env_no_port (ex_intro _ opts_test eq_refl))
    as (r & w' & m & Hrun & Hops & Hfrom & _).
  exists m. rewrite Hrun. split; [exact Hops | exact Hfrom].
Defined.

(** With SMTP_PORT unset the client is built for port 587. *)
Lemma C8_witness :
  constructor (H := stub hung) (boot env_no_port)
  = (Normal (service_test hung), snd (constructor (H := stub hung) (boot env_no_port)))
  /\ transporter (service_test hung) = Some opts_test
  /\ env_no_port !! "SMTP_PORT" = None
  /\ port opts_test = Num 587
  /\ connectionTimeout opts_test = 5000.
Proof.
  split; [exact constructor_env_no_port |]. split; [reflexivity |].
  split; [reflexivity |].
  destruct (C8_transport_options (H := stub hung) (boot env_no_port) _
              (service_test hung) opts_test constructor_env_no_port eq_refl)
    as (opts & Heq & Hport & _ & Hct & _).
  cbn in Heq. subst opts. split; [exact (Hport eq_refl) | exact Hct].
Defined.

Lemma rejecting_string_fails (v : string) (mail : MailOptions) :
  transport_fails_with (rejecting_string v mail) (StringValue v).
Proof.
  right. exists 0. split; [reflexivity |]. unfold EMAIL_TIMEOUT_MS. lia.
Defined.

(** The transport rejects at once with a plain string. *)
Lemma C9_witness :
  transporter (service_test (rejecting_string "mailbox full")) = Some opts_test
  /\ instanceof_Error (StringValue "mailbox full") = false
  /\ fst (sendEmail (service_test (rejecting_string "mailbox full")) request
            (boot env_test))
     = Normal {| success := false; error := Some "Unknown error" |}.
Proof.
  split; [reflexivity |]. split; [reflexivity |].
  destruct (C9_non_error_rejection (H := stub (rejecting_string "mailbox full"))
              (service_test _) request (boot env_test) opts_test
              (StringValue "mailbox full") eq_refl eq_refl
              (rejecting_string_fails _ _))
    as (w' & Hrun).
  rewrite Hrun. reflexivity.
Defined.

(** *** Further runs of the primitives and of the service *)

Example parseInt_default_port : parseInt (or_default None "587") = Num 587.
Proof. vm_compute. reflexivity. Qed.

Example parseInt_empty_port : parseInt (or_default (Some "") "587") = Num 587.
Proof. vm_compute. reflexivity. Qed.

Example parseInt_leading_space : parseInt "  465 " = Num 465.
Proof. vm_compute. reflexivity. Qed.

Example parseInt_hex : parseInt "-0x1F" = Num (-31).
Proof. vm_compute. reflexivity. Qed.

Example parseInt_not_a_number : parseInt "smtp" = NaN.
Proof. vm_compute. reflexivity. Qed.

Example parseInt_rounds : parseInt "9007199254740993" = Num 9007199254740992.
Proof. vm_compute. reflexivity. Qed.

Example split_two : split "," "a.dev,b.dev" = ["a.dev"; "b.dev"].
Proof. reflexivity. Qed.

Example split_leading_comma : split "," ",b.dev" = [""; "b.dev"].
Proof. reflexivity. Qed.

Example includes_connection_timeout :
  includes "Connection timeout" "timeout" = true.
Proof. vm_compute. reflexivity. Qed.

(** Port 465 switches the secure flag on. *)
Example constructor_secure :
  fst (constructor (H := stub hung) (boot env_secure))
  = Normal
      (@Build_t (stub hung)
         (Some {| host := Some "smtp.test"; port := Num 465;
                  secure := true; auth_user := Some "a@test";
                  auth_pass := Some "x"; connectionTimeout := 5000;
                  socketTimeout := 5000; greetingTimeout := 5000 |})).
Proof. vm_compute. reflexivity. Qed.

(** A transport that resolves within the bound: success, one call. *)
Example sendEmail_fast :
  let answer := fun _ : MailOptions =>
                  Returns (SettlesAt 120 (Fulfilled (Some "<1@smtp.test>"))) in
  let run := sendEmail (service_test answer) request (boot env_test) in
  fst run = Normal {| success := true; error := None |}
  /\ clock (snd run) = 120
  /\ ops (snd run) = [SendMailOp (outgoing (boot env_test) request)].
Proof. vm_compute. repeat split. Qed.

(** A transport that never settles: failure at 5000 ms. *)
Example sendEmail_hung :
  let run := sendEmail (service_test hung) request (boot env_test) in
  fst run = Normal {| success := false; error := Some timeout_result_message |}
  /\ clock (snd run) = 5000.
Proof. vm_compute. repeat split. Qed.

(** The link base in three environments. *)
Example loginUrl_empty_frontend :
  loginUrl_of (<["FRONTEND_URL" := ""]>
                 (<["REPLIT_DOMAINS" := "a.replit.dev,b.replit.dev"]> ∅))
  = "a.replit.dev".
Proof. vm_compute. reflexivity. Qed.

Example loginUrl_empty_first_entry :
  loginUrl_of (<["REPLIT_DOMAINS" := ",b.replit.dev"]> ∅)
  = "https://www.kosmospace.com".
Proof. vm_compute. reflexivity. Qed.

Example loginUrl_explicit :
  loginUrl_of (<["FRONTEND_URL" := "https://app.test"]>
                 (<["REPLIT_DOMAINS" := "a.replit.dev"]> ∅))
  = "https://app.test".
Proof. vm_compute. reflexivity. Qed.


(* ===================================================================== *)
(** ** Further properties of the service *)
(* ===================================================================== *)

Section SendingRuns.
Context `{Nodemailer}.
Variables (this : t) (options : EmailOptions) (w : World).

(** The whole run when the call throws on the spot. *)
Lemma sendEmail_thrown_run (tr : Transporter) (e : Thrown) :
  transporter this = Some tr ->
  sendMail_answer tr (outgoing w options) = ThrowsSync e ->
  sendEmail this options w =
    (Normal (failure_of e),
     {| env := env w;
        logs := logs w ++ [attempt_event options; failure_event options 0 e];
        ops := ops w ++ [SendMailOp (outgoing w options)];
        clock := clock w |}).
Proof.
  intros Ht Ha. unfold outgoing in Ha. js_unfold. rewrite Ht. cbn.
  rewrite Ha. cbn. rewrite Nat.sub_diag, <- !app_assoc. unfold failure_of.
  destruct e as [m| |]; cbn; rewrite ?unknown_error_no_timeout;
    try destruct (includes m "timeout"); reflexivity.
Qed.

(** The whole run when the race settles with [s] after [n] ms. *)
Lemma sendEmail_settled_run (tr : Transporter) (p : Promise) (n : nat)
    (s : Settlement) :
  transporter this = Some tr ->
  sendMail_answer tr (outgoing w options) = Returns p ->
  Promise_race [p; timer] = SettlesAt n s ->
  sendEmail this options w =
    (Normal (result_of s),
     {| env := env w;
        logs := logs w ++ [attempt_event options; outcome_event options n s];
        ops := ops w ++ [SendMailOp (outgoing w options)];
        clock := clock w + n |}).
Proof.
  intros Ht Ha Hr. unfold outgoing in Ha. unfold timer in Hr.
  js_unfold. rewrite Ht. cbn. rewrite Ha. cbn. cbn in Hr. rewrite Hr.
  unfold result_of, outcome_event, failure_of, success_event, failure_event,
    attempt_event.
  destruct s as [v|[m| |]]; cbn; rewrite ?unknown_error_no_timeout;
    try destruct (includes m "timeout"); cbn; rewrite <- ?app_assoc; cbn;
    replace (clock w + n - clock w) with n by lia; reflexivity.
Qed.

End SendingRuns.

(** The race with the timer always settles, within the bound, either as
    the transport promise did or as the timer does. *)
Lemma race_settles (p : Promise) :
  exists n s,
    Promise_race [p; timer] = SettlesAt n s
    /\ n <= EMAIL_TIMEOUT_MS
    /\ (p = SettlesAt n s
        \/ (settles_by EMAIL_TIMEOUT_MS p = false
            /\ n = EMAIL_TIMEOUT_MS
            /\ s = Rejected (ErrorObject timeout_reason))).
Proof.
  destruct p as [n s|]; cbn.
  - destruct (Nat.leb_spec n EMAIL_TIMEOUT_MS) as [Hle|Hgt].
    + exists n, s. auto.
    + eexists _, _. split; [reflexivity |]. split; [lia |]. right. auto.
  - eexists _, _. split; [reflexivity |]. split; [lia |]. right. auto.
Qed.

Section SendingProperties.
Context `{Nodemailer}.

(** Every run of a configured service, in one of two shapes. *)
Lemma sendEmail_configured_run (this : t) (options : EmailOptions) (w : World)
    (tr : Transporter) :
  transporter this = Some tr ->
  (exists e,
     sendMail_answer tr (outgoing w options) = ThrowsSync e
     /\ sendEmail this options w =
          (Normal (failure_of e),
           {| env := env w;
              logs := logs w ++ [attempt_event options; failure_event options 0 e];
              ops := ops w ++ [SendMailOp (outgoing w options)];
              clock := clock w |}))
  \/ (exists p n s,
        sendMail_answer tr (outgoing w options) = Returns p
        /\ n <= EMAIL_TIMEOUT_MS
        /\ (p = SettlesAt n s
            \/ (settles_by EMAIL_TIMEOUT_MS p = false
                /\ n = EMAIL_TIMEOUT_MS
                /\ s = Rejected (ErrorObject timeout_reason)))
        /\ sendEmail this options w =
             (Normal (result_of s),
              {| env := env w;
                 logs := logs w ++ [attempt_event options; outcome_event options n s];
                 ops := ops w ++ [SendMailOp (outgoing w options)];
                 clock := clock w + n |})).
Proof.
  intros Ht.
  destruct (sendMail_answer tr (outgoing w options)) as [p|e] eqn:Ha.
  - right. destruct (race_settles p) as (n & s & Hr & Hle & Hwho).
    exists p, n, s. split; [reflexivity |]. split; [exact Hle |].
    split; [exact Hwho |]. now apply (sendEmail_settled_run this options w tr p).
  - left. exists e. split; [reflexivity |].
    now apply (sendEmail_thrown_run this options w tr).
Qed.

(** X2.  The result carries an error exactly when it reports failure,
    and success is reported only when the transport promise was fulfilled
    no later than 5000 ms after the call: never for an unconfigured
    service, a failed call or a late one. *)
Theorem sendEmail_success_means_delivered (this : t) (options : EmailOptions)
    (w : World) :
  exists r w',
    sendEmail this options w = (Normal r, w')
    /\ (success r = true <-> error r = None)
    /\ (success r = true ->
        exists tr n v,
          transporter this = Some tr
          /\ sendMail_answer tr (outgoing w options)
             = Returns (SettlesAt n (Fulfilled v))
          /\ n <= EMAIL_TIMEOUT_MS).
Proof.
  destruct (transporter this) as [tr|] eqn:Ht.
  - destruct (sendEmail_configured_run this options w tr Ht)
      as [(e & _ & Hrun) | (p & n & s & Ha & Hle & Hwho & Hrun)];
      rewrite Hrun; eexists _, _; (split; [reflexivity |]).
    + cbn. split; [split; discriminate | discriminate].
    + destruct s as [v|e]; cbn.
      * split; [tauto |]. intros _.
        destruct Hwho as [-> | (_ & _ & [=])]. exists tr, n, v. auto.
      * split; [split; discriminate | discriminate].
  - rewrite (sendEmail_unconfigured this options w Ht).
    eexists _, _. split; [reflexivity |]. cbn.
    split; [split; discriminate | discriminate].
Qed.

(** X3.  Once the timer has won, what the transport does later is not
    observed: two clients whose promises both settle after 5000 ms, or
    never, in whatever way, lead to the same result and the same world. *)
Theorem sendEmail_late_outcome_discarded (tr1 tr2 : Transporter)
    (p q : Promise) (options : EmailOptions) (w : World) :
  sendMail_answer tr1 (outgoing w options) = Returns p ->
  sendMail_answer tr2 (outgoing w options) = Returns q ->
  settles_by EMAIL_TIMEOUT_MS p = false ->
  settles_by EMAIL_TIMEOUT_MS q = false ->
  sendEmail {| transporter := Some tr1 |} options w
  = sendEmail {| transporter := Some tr2 |} options w.
Proof.
  intros Hp Hq Hlp Hlq.
  rewrite (sendEmail_settled_run {| transporter := Some tr1 |} options w
             tr1 p _ _ eq_refl Hp (race_timer_wins p Hlp)).
  rewrite (sendEmail_settled_run {| transporter := Some tr2 |} options w
             tr2 q _ _ eq_refl Hq (race_timer_wins q Hlq)).
  reflexivity.
Qed.

(** X4.  A call on a configured service logs exactly two events: first
    the attempt, then either a success (info) or a failure (error).  The
    failure event keeps the message that was caught, also when the result
    replaces it by the timed-out message; the second event records the
    time that elapsed during the call. *)
Theorem sendEmail_logs_two_events (this : t) (options : EmailOptions)
    (w : World) (tr : Transporter) :
  transporter this = Some tr ->
  exists r w' outcome,
    sendEmail this options w = (Normal r, w')
    /\ logs w' = (logs w ++ [attempt_event options; outcome])%list
    /\ (success r = true ->
        log_level outcome = LInfo
        /\ log_message outcome = "Email sent successfully")
    /\ (success r = false ->
        log_level outcome = LError
        /\ log_message outcome = "Failed to send email"
        /\ exists raw,
             In ("error", Some raw) (log_fields outcome)
             /\ (error r = Some raw
                 \/ (includes raw "timeout" = true
                     /\ error r = Some timeout_result_message)))
    /\ In ("duration", Some (show_nat (clock w' - clock w) +:+ "ms"))
         (log_fields outcome).
Proof.
  intros Ht.
  destruct (sendEmail_configured_run this options w tr Ht)
    as [(e & _ & Hrun) | (p & n & s & _ & _ & _ & Hrun)];
    rewrite Hrun; eexists _, _, _; (split; [reflexivity |]);
    (split; [reflexivity |]); cbn [clock].
  - rewrite Nat.sub_diag. cbn. split; [discriminate |].
    split; [| auto 10]. intros _. split; [reflexivity |]. split; [reflexivity |].
    exists (caught_message e). split; [auto 10 |].
    destruct (includes (caught_message e) "timeout"); auto.
  - replace (clock w + n - clock w) with n by lia.
    destruct s as [v|e]; cbn.
    + split; [auto |]. split; [discriminate | auto 10].
    + split; [discriminate |]. split; [| auto 10]. intros _.
      split; [reflexivity |]. split; [reflexivity |].
      exists (caught_message e). split; [auto 10 |].
      destruct (includes (caught_message e) "timeout"); auto.
Qed.

(** X5.  The body of the request is handed to the transport and to
    nothing else: two requests with the same recipient and subject, to
    which the transport answers alike, give the same result, the same log
    and the same elapsed time, whatever their bodies. *)
Theorem sendEmail_body_not_observed (this : t) (o1 o2 : EmailOptions)
    (w : World) (tr : Transporter) :
  transporter this = Some tr ->
  to o1 = to o2 ->
  subject o1 = subject o2 ->
  sendMail_answer tr (outgoing w o1) = sendMail_answer tr (outgoing w o2) ->
  fst (sendEmail this o1 w) = fst (sendEmail this o2 w)
  /\ logs (snd (sendEmail this o1 w)) = logs (snd (sendEmail this o2 w))
  /\ clock (snd (sendEmail this o1 w)) = clock (snd (sendEmail this o2 w)).
Proof.
  intros Ht Hto Hsub Hans.
  assert (attempt_event o1 = attempt_event o2) as Hatt
    by (unfold attempt_event; now rewrite Hto, Hsub).
  assert (forall n s, outcome_event o1 n s = outcome_event o2 n s) as Hout.
  { intros n [v|e]; cbn; unfold success_event, failure_event;
      now rewrite Hto, Hsub. }
  destruct (sendMail_answer tr (outgoing w o2)) as [p|e] eqn:Ha.
  - destruct (race_settles p) as (n & s & Hr & _).
    rewrite (sendEmail_settled_run this o1 w tr p n s Ht Hans Hr),
      (sendEmail_settled_run this o2 w tr p n s Ht Ha Hr).
    cbn. now rewrite Hatt, Hout.
  - rewrite (sendEmail_thrown_run this o1 w tr e Ht Hans),
      (sendEmail_thrown_run this o2 w tr e Ht Ha).
    cbn. rewrite Hatt. specialize (Hout 0 (Rejected e)). cbn in Hout.
    now rewrite Hout.
Qed.

End SendingProperties.

(** *** Decimal ports *)

Lemma unorm_not_nil (d : Decimal.uint) : Decimal.unorm d <> Decimal.Nil.
Proof. unfold Decimal.unorm. destruct (Decimal.nzhead d); discriminate. Qed.

Lemma to_uint_not_nil (n : nat) : Nat.to_uint n <> Decimal.Nil.
Proof.
  rewrite <- (DecimalNat.Unsigned.of_to n) at 1.
  rewrite DecimalNat.Unsigned.to_of. apply unorm_not_nil.
Qed.

Lemma skip_one_digit (d : Decimal.uint) :
  d <> Decimal.Nil -> skip_one (NilEmpty.string_of_uint d) = None.
Proof.
  destruct d; [congruence | ..]; intros _; vm_compute; reflexivity.
Qed.

Lemma trim_start_digit (d : Decimal.uint) :
  d <> Decimal.Nil ->
  trim_start (NilEmpty.string_of_uint d) = NilEmpty.string_of_uint d.
Proof.
  intros Hd. unfold trim_start.
  destruct (String.length (NilEmpty.string_of_uint d)) as [|fuel];
    [reflexivity |].
  cbn [trim_start_fuel]. now rewrite skip_one_digit.
Qed.

(** On a string of decimal digits [parseInt] takes no sign and no hex
    prefix. *)
Lemma parseInt_uint (d : Decimal.uint) :
  d <> Decimal.Nil ->
  parseInt (NilEmpty.string_of_uint d) =
    match parse_digits 10 None (NilEmpty.string_of_uint d) with
    | None => NaN
    | Some n => to_double false n
    end.
Proof.
  intros Hd. unfold parseInt. rewrite (trim_start_digit d Hd).
  destruct d as [|d|d|d|d|d|d|d|d|d|d]; [congruence | ..]; try reflexivity.
  destruct d; reflexivity.
Qed.

Ltac digit_step :=
  first [ change (digit_value 10 _) with (Some 0%Z)
        | change (digit_value 10 _) with (Some 1%Z)
        | change (digit_value 10 _) with (Some 2%Z)
        | change (digit_value 10 _) with (Some 3%Z)
        | change (digit_value 10 _) with (Some 4%Z)
        | change (digit_value 10 _) with (Some 5%Z)
        | change (digit_value 10 _) with (Some 6%Z)
        | change (digit_value 10 _) with (Some 7%Z)
        | change (digit_value 10 _) with (Some 8%Z)
        | change (digit_value 10 _) with (Some 9%Z) ];
  cbv iota.

Lemma parse_digits_acc (d : Decimal.uint) (a : nat) :
  parse_digits 10 (Some (Z.of_nat a)) (NilEmpty.string_of_uint d)
  = Some (Z.of_nat (Nat.of_uint_acc d a)).
Proof.
  revert a. induction d; intros a;
    cbn [NilEmpty.string_of_uint Nat.of_uint_acc parse_digits];
    [reflexivity | ..];
    digit_step; rewrite <- IHd; do 2 f_equal; rewrite Nat.tail_mul_spec; lia.
Qed.

Lemma parse_digits_uint (d : Decimal.uint) :
  d <> Decimal.Nil ->
  parse_digits 10 None (NilEmpty.string_of_uint d)
  = Some (Z.of_nat (Nat.of_uint d)).
Proof.
  destruct d; [congruence | ..]; intros _; unfold Nat.of_uint;
    cbn [NilEmpty.string_of_uint Nat.of_uint_acc parse_digits];
    digit_step; rewrite <- parse_digits_acc; reflexivity.
Qed.

(** Integers below 2^53 are doubles. *)
Lemma to_double_exact (n : Z) :
  (0 <= n < 2 ^ 53)%Z -> to_double false n = Num n.
Proof.
  intros [Hlo Hhi]. unfold to_double.
  destruct (Z.eqb_spec n 0) as [-> | Hne]; [reflexivity |].
  assert (Z.log2 n < 53)%Z as Hlog by (apply Z.log2_lt_pow2; lia).
  cbv zeta. destruct (Z.leb_spec (Z.log2 n - 52) 0) as [_ | Hbig]; [| lia].
  rewrite Z.shiftl_1_l.
  assert (2 ^ 53 < 2 ^ 1024)%Z by (apply Z.pow_lt_mono_r; lia).
  destruct (Z.leb_spec (2 ^ 1024) n); [lia | reflexivity].
Qed.

(** [parseInt] reads back the decimal rendering of a number. *)
Lemma parseInt_show_nat (n : nat) :
  (Z.of_nat n < 2 ^ 53)%Z -> parseInt (show_nat n) = Num (Z.of_nat n).
Proof.
  intros Hn. unfold show_nat.
  rewrite (parseInt_uint _ (to_uint_not_nil n)),
    (parse_digits_uint _ (to_uint_not_nil n)), DecimalNat.Unsigned.of_to.
  apply to_double_exact. lia.
Qed.

Lemma show_nat_truthy (n : nat) : truthy (Some (show_nat n)) = true.
Proof.
  apply truthy_nonempty. unfold show_nat.
  pose proof (to_uint_not_nil n) as Hd.
  destruct (Nat.to_uint n); [congruence | ..]; discriminate.
Qed.

Section Ports.
Context `{Nodemailer}.

(** X6.  A port given in decimal is honoured: when SMTP_PORT holds the
    decimal rendering of a number below 2^53, the transport client is
    built for exactly that port. *)
Theorem constructor_decimal_port (w w' : World) (this : t) (tr : Transporter)
    (n : nat) :
  constructor w = (Normal this, w') ->
  transporter this = Some tr ->
  env w !! "SMTP_PORT" = Some (show_nat n) ->
  (Z.of_nat n < 2 ^ 53)%Z ->
  exists opts, tr = createTransport opts /\ port opts = Num (Z.of_nat n).
Proof.
  intros Hrun Htr Hport Hn.
  destruct (truthy (env w !! "SMTP_HOST") && truthy (env w !! "SMTP_USER")
            && truthy (env w !! "SMTP_PASS")) eqn:Hc.
  - destruct (constructor_configured w Hc)
      as (opts & w1 & Hrun' & _ & Hp & _).
    rewrite Hrun' in Hrun. injection Hrun as <- <-. cbn in Htr.
    injection Htr as <-. exists opts. split; [reflexivity |].
    rewrite Hp, Hport. unfold or_default. rewrite show_nat_truthy.
    now apply parseInt_show_nat.
  - destruct (constructor_unconfigured w Hc) as (w1 & Hrun' & _).
    rewrite Hrun' in Hrun. injection Hrun as <- <-. discriminate.
Qed.

(** X7.  The secure flag and the port agree in one direction only: a
    client built with the secure flag set is built for port 465, and a
    client built while SMTP_PORT is unset or empty is built for port 587
    with the flag off. *)
Theorem constructor_secure_only_465 (w w' : World) (this : t) (tr : Transporter) :
  constructor w = (Normal this, w') ->
  transporter this = Some tr ->
  exists opts,
    tr = createTransport opts
    /\ (secure opts = true -> port opts = Num 465)
    /\ (env w !! "SMTP_PORT" = None \/ env w !! "SMTP_PORT" = Some "" ->
        port opts = Num 587 /\ secure opts = false).
Proof.
  intros Hrun Htr.
  destruct (truthy (env w !! "SMTP_HOST") && truthy (env w !! "SMTP_USER")
            && truthy (env w !! "SMTP_PASS")) eqn:Hc.
  - destruct (constructor_configured w Hc)
      as (opts & w1 & Hrun' & _ & Hp & Hs & _).
    rewrite Hrun' in Hrun. injection Hrun as <- <-. cbn in Htr.
    injection Htr as <-. exists opts. split; [reflexivity |].
    rewrite Hp, Hs. split.
    + unfold strict_eq. destruct (env w !! "SMTP_PORT") as [v|]; [| discriminate].
      intros Hv. apply String.eqb_eq in Hv. subst v. reflexivity.
    + intros [-> | ->]; split; reflexivity.
  - destruct (constructor_unconfigured w Hc) as (w1 & Hrun' & _).
    rewrite Hrun' in Hrun. injection Hrun as <- <-. discriminate.
Qed.

End Ports.

(** *** The approval email, end to end *)

Lemma html_head_greeting : html_head = before_greeting +:+ greeting_open.
Proof. vm_compute. reflexivity. Qed.

Lemma html_after_firstName_greeting :
  html_after_firstName = greeting_close +:+ after_greeting.
Proof. vm_compute. reflexivity. Qed.

Lemma approval_html_greeting (base email firstName password : string) :
  includes (approval_html base email firstName password)
    (greeting_open +:+ firstName +:+ greeting_close) = true.
Proof.
  unfold approval_html.
  rewrite html_head_greeting, html_after_firstName_greeting.
  rewrite !append_assoc.
  rewrite <- (append_assoc firstName greeting_close),
    <- (append_assoc greeting_open (firstName +:+ greeting_close)).
  apply includes_middle.
Qed.

Lemma approval_html_password (base email firstName password : string) :
  includes (approval_html base email firstName password) password = true.
Proof.
  unfold approval_html.
  rewrite <- (append_assoc html_head), <- (append_assoc (html_head +:+ _)),
    <- (append_assoc (_ +:+ html_after_firstName)),
    <- (append_assoc (_ +:+ email)).
  apply includes_middle.
Qed.

Section ApprovalRuns.
Context `{Nodemailer}.

(** X8.  On a configured service [sendBeauticianApprovalEmail] makes
    exactly one transport call: a message to the given email, from
    SMTP_USER, with the fixed subject and a body that greets the given
    first name and shows the given password.  On an unconfigured service
    it makes no call and reports that the service is not configured. *)
Theorem approval_email_one_message (this : t) (email firstName password : string)
    (w : World) :
  exists c w',
    sendBeauticianApprovalEmail this email firstName password w = (c, w')
    /\ (transporter this = None ->
        ops w' = ops w
        /\ c = Normal {| success := false;
                         error := Some "Email service not configured" |})
    /\ (is_Some (transporter this) ->
        exists m,
          ops w' = (ops w ++ [SendMailOp m])%list
          /\ mail_to m = email
          /\ mail_from m = env w !! "SMTP_USER"
          /\ mail_subject m
             = "Welcome to Kosmospace - Your Application Has Been Approved!"
          /\ includes (mail_html m) ("<p>Dear " +:+ firstName +:+ ",</p>") = true
          /\ includes (mail_html m) password = true).
Proof.
  rewrite sendBeauticianApprovalEmail_delegates.
  set (options := {| to := email; subject := approval_subject;
                     html := approval_html (loginUrl_of (env w)) email
                               firstName password |}).
  destruct (transporter this) as [tr|] eqn:Ht.
  - assert (exists c w',
               sendEmail this options w = (c, w')
               /\ ops w' = (ops w ++ [SendMailOp (outgoing w options)])%list)
      as (c & w' & Hrun & Hops).
    { destruct (sendEmail_configured_run this options w tr Ht)
        as [(e & _ & Hrun) | (p & n & s & _ & _ & _ & Hrun)];
        rewrite Hrun; eexists _, _; split; reflexivity. }
    exists c, w'. split; [exact Hrun |].
    split; [discriminate |]. intros _. exists (outgoing w options).
    split; [exact Hops |]. cbn. repeat split.
    + apply approval_html_greeting.
    + apply approval_html_password.
  - rewrite (sendEmail_unconfigured this options w Ht).
    eexists _, _. split; [reflexivity |]. cbn.
    split; [auto |]. intros [tr [=]].
Qed.

End ApprovalRuns.


(* ===================================================================== *)
(** ** The admin script *)
(* ===================================================================== *)

Ltac script_unfold :=
  unfold fixAdminUser, try_script, db_run, hashPassword, property,
    console_log, console_error, console_error_with, write_line, process_exit,
    new_Date, raise, mbind, mret, Script_bind, Script_ret.

Ltac answer_cases :=
  repeat match goal with
    | |- context [db_answer ?q] =>
        let Hq := fresh "Hq" in
        destruct (db_answer q) as [[|? ?]|?] eqn:Hq; cbn
    | |- context [hashPassword_answer ?x] =>
        let Hh := fresh "Hh" in
        destruct (hashPassword_answer x) as [?|?] eqn:Hh; cbn
    end.

Section AdminScriptProperties.
Context `{Persistence}.
Variable st : State.

(** X9.  The admin script always ends the process, with exit code 0 or
    1, and never returns or throws.  The code is 0 exactly when the
    password was hashed and the one write that was due returned a row:
    the update if the select found a user, the insert if it found
    none. *)
Theorem fixAdminUser_exit_code :
  exists code st',
    fixAdminUser st = (Exited code, st')
    /\ (code = 0 \/ code = 1)
    /\ (code = 0 <->
        exists h,
          hashPassword_answer ADMIN_PASSWORD = Hashed h
          /\ ((exists r rs u us,
                 db_answer select_admin = Rows (r :: rs)
                 /\ db_answer (update_admin h (now st)) = Rows (u :: us))
              \/ (db_answer select_admin = Rows []
                  /\ exists n ns, db_answer (insert_admin h) = Rows (n :: ns)))).
Proof.
  unfold select_admin, update_admin, insert_admin.
  script_unfold. cbn. answer_cases.
  all: eexists _, _; (split; [reflexivity |]).
  all: split; [auto |].
  all: split;
    [ intros Hc; try discriminate Hc; eexists; (split; [reflexivity |]);
      first [ left; do 4 eexists; split; [reflexivity | eassumption]
            | right; split; [reflexivity |]; do 2 eexists; eassumption ]
    | intros (h & Hh' & [(r' & rs & u & us & Hs & Hu) | (Hs & n & ns & Hi)]);
      congruence ].
Qed.

(** X10.  The script sends the select first and then at most one write.
    A write is sent only after [hashPassword] was called, once, on the
    admin password, and it carries the admin email, the role admin and
    the hash that call returned; it is an update when the select found a
    user and an insert when it found none.  Exit code 0 implies the write
    was sent. *)
Theorem fixAdminUser_statements :
  exists code st' writes,
    fixAdminUser st = (Exited code, st')
    /\ queries st' = (queries st ++ select_admin :: writes)%list
    /\ (writes = []
        \/ exists h,
             hashPassword_answer ADMIN_PASSWORD = Hashed h
             /\ hashed st' = (hashed st ++ [ADMIN_PASSWORD])%list
             /\ ((writes = [update_admin h (now st)]
                  /\ exists r rs, db_answer select_admin = Rows (r :: rs))
                 \/ (writes = [insert_admin h]
                     /\ db_answer select_admin = Rows [])))
    /\ (code = 0 -> writes <> []).
Proof.
  unfold select_admin, update_admin, insert_admin.
  script_unfold. cbn. answer_cases.
  all: eexists _, _, _; (split; [reflexivity |]); cbn; rewrite <- ?app_assoc;
    cbn; (split; [reflexivity |]).
  all: split; [| try discriminate; intros _; discriminate].
  all: first [ left; reflexivity
             | right; eexists; split; [reflexivity |]; split; [reflexivity |];
               first [ left; split; [reflexivity | eauto]
                     | right; split; reflexivity ] ].
Qed.

(** X11.  When the select fails, or the hashing fails, the script sends
    no write at all: the select is the only statement, the error is
    printed and the exit code is 1. *)
Theorem fixAdminUser_no_write_on_early_failure :
  (exists e, db_answer select_admin = QueryFails e)
  \/ (exists e, hashPassword_answer ADMIN_PASSWORD = HashFails e) ->
  exists st' pre e,
    fixAdminUser st = (Exited 1, st')
    /\ queries st' = (queries st ++ [select_admin])%list
    /\ console st' = (console st ++ pre ++ [failure_line e])%list
    /\ (db_answer select_admin = QueryFails e
        \/ hashPassword_answer ADMIN_PASSWORD = HashFails e).
Proof.
  unfold select_admin, failure_line.
  intros [(e & He) | (e & He)]; script_unfold; cbn; rewrite ?He; cbn.
  - eexists _, [_], e. cbn. rewrite <- app_assoc. auto.
  - destruct (db_answer (SelectUsersByEmail ADMIN_EMAIL 1)) as [[|r rs]|e']
      eqn:Hq; cbn; rewrite ?He; cbn.
    + eexists _, [_; _], e. cbn. rewrite <- !app_assoc. auto.
    + eexists _, [_; _; _; _], e. cbn. rewrite <- !app_assoc. auto.
    + eexists _, [_], e'. cbn. rewrite <- !app_assoc. auto.
Qed.

(** X12.  A write that succeeds but returns no row makes the script
    fail: after the update (or the insert) was sent, reading a column of
    the missing row raises a TypeError, which is printed, and the exit
    code is 1 although the statement went through. *)
Theorem fixAdminUser_write_without_row_fails (h : string) :
  hashPassword_answer ADMIN_PASSWORD = Hashed h ->
  (forall r rs,
     db_answer select_admin = Rows (r :: rs) ->
     db_answer (update_admin h (now st)) = Rows [] ->
     exists st' pre,
       fixAdminUser st = (Exited 1, st')
       /\ queries st' = (queries st ++ [select_admin; update_admin h (now st)])%list
       /\ console st'
          = (console st ++ pre ++ [failure_line (undefined_property "role")])%list)
  /\ (db_answer select_admin = Rows [] ->
      db_answer (insert_admin h) = Rows [] ->
      exists st' pre,
        fixAdminUser st = (Exited 1, st')
        /\ queries st' = (queries st ++ [select_admin; insert_admin h])%list
        /\ console st'
           = (console st ++ pre ++ [failure_line (undefined_property "email")])%list).
Proof.
  unfold select_admin, update_admin, insert_admin, failure_line,
    undefined_property.
  intros Hh. split.
  - intros r rs Hs Hu. script_unfold. cbn. rewrite Hs. cbn. rewrite Hh. cbn.
    rewrite Hu. cbn. eexists _, [_; _; _; _; _]. cbn.
    rewrite <- !app_assoc. auto.
  - intros Hs Hi. script_unfold. cbn. rewrite Hs. cbn. rewrite Hh. cbn.
    rewrite Hi. cbn. eexists _, [_; _; _]. cbn.
    rewrite <- !app_assoc. auto.
Qed.

(** X13.  The script prints the admin password in clear exactly when it
    succeeds: the password line is among the lines of a run if and only if
    the exit code is 0, and a run that exits with 1 ends with the error
    line. *)
Theorem fixAdminUser_password_printed_iff_success :
  exists code st' lines,
    fixAdminUser st = (Exited code, st')
    /\ console st' = (console st ++ lines)%list
    /\ (In password_line lines <-> code = 0)
    /\ (code = 1 -> exists pre e, lines = (pre ++ [failure_line e])%list).
Proof.
  unfold password_line, failure_line.
  script_unfold. cbn. answer_cases.
  all: eexists _, _, _; (split; [reflexivity |]); cbn; rewrite <- ?app_assoc;
    cbn; (split; [reflexivity |]).
  all: split;
    [ split;
      [ intros Hin; cbn in Hin;
        repeat (destruct Hin as [Hin|Hin]; [try (vm_compute in Hin; discriminate) |]);
        try contradiction; reflexivity
      | intros Hc; try discriminate Hc; cbn; auto 20 ]
    | intros Hc; try discriminate Hc ].
  all: first [ exists [], e; reflexivity
             | eexists [_], _; reflexivity
             | eexists [_; _], _; reflexivity
             | eexists [_; _; _], _; reflexivity
             | eexists [_; _; _; _], _; reflexivity
             | eexists [_; _; _; _; _], _; reflexivity
             | eexists [_; _; _; _; _; _], _; reflexivity
             | eexists [_; _; _; _; _; _; _], _; reflexivity ].
Qed.

End AdminScriptProperties.


(* ===================================================================== *)
(** ** The build check *)
(* ===================================================================== *)

Import NodePath.

Lemma append_empty_r (s : string) : s +:+ "" = s.
Proof. induction s as [|c s IH]; [reflexivity |]. rewrite append_cons. now f_equal. Qed.

Lemma includes_slash_cons (c : ascii) (f : string) :
  includes (String c f) "/" = false <-> c <> "/"%char /\ includes f "/" = false.
Proof.
  rewrite (includes_unfold (String c f)). cbn [String.prefix].
  destruct (ascii_dec "/" c) as [<-|Hne].
  - destruct f; cbn; split; try discriminate; intros [Hc _]; congruence.
  - split; [intros Hf; split; [congruence | exact Hf] | intros [_ Hf]; exact Hf].
Qed.

Lemma split_nonempty (sep : ascii) (s : string) : split sep s <> [].
Proof.
  destruct s as [|c s]; cbn; [discriminate |].
  destruct (Ascii.eqb c sep); [discriminate |].
  destruct (split sep s); discriminate.
Qed.

Lemma split_plain_app (s x : string) :
  includes s "/" = false ->
  split "/" (s +:+ x) =
    match split "/" x with
    | hd :: tl => (s +:+ hd) :: tl
    | [] => [s]
    end.
Proof.
  induction s as [|c s IH]; intros Hs.
  - rewrite append_nil. pose proof (split_nonempty "/" x).
    destruct (split "/" x); [congruence | reflexivity].
  - apply includes_slash_cons in Hs. destruct Hs as [Hc Hs].
    rewrite append_cons. cbn [split].
    destruct (Ascii.eqb_spec c "/"); [congruence |].
    rewrite (IH Hs). pose proof (split_nonempty "/" x).
    destruct (split "/" x); [congruence | reflexivity].
Qed.

Lemma split_plain (s : string) : includes s "/" = false -> split "/" s = [s].
Proof.
  intros Hs. rewrite <- (append_empty_r s) at 1.
  rewrite (split_plain_app s "" Hs). cbn. now rewrite append_empty_r.
Qed.

Lemma split_sep (x : string) : split "/" ("/" +:+ x) = "" :: split "/" x.
Proof. reflexivity. Qed.

Lemma split_absolute (segs : list string) (x : string) :
  Forall plain segs ->
  split "/" (absolute segs +:+ "/" +:+ x) = ("" :: segs ++ split "/" x)%list.
Proof.
  induction 1 as [|s segs (_ & _ & _ & Hs) _ IH]; [apply split_sep |].
  cbn [absolute]. rewrite !append_assoc, split_sep.
  rewrite (split_plain_app s _ Hs), IH, append_empty_r. reflexivity.
Qed.

Lemma plain_eqb (s : string) :
  plain s ->
  String.eqb s "" = false /\ String.eqb s "." = false /\ String.eqb s ".." = false.
Proof.
  intros (H1 & H2 & H3 & _). repeat split; now apply String.eqb_neq.
Qed.

Lemma normalize_segments_empty (b : bool) (done todo : list string) :
  normalize_segments b done ("" :: todo) = normalize_segments b done todo.
Proof. reflexivity. Qed.

Lemma normalize_segments_plain (b : bool) (done todo : list string) (s : string) :
  plain s ->
  normalize_segments b done (s :: todo) = normalize_segments b (s :: done) todo.
Proof.
  intros Hs. destruct (plain_eqb s Hs) as (H1 & H2 & H3).
  cbn [normalize_segments]. now rewrite H1, H2, H3.
Qed.

Lemma normalize_segments_plains (b : bool) (segs done todo : list string) :
  Forall plain segs ->
  normalize_segments b done (segs ++ todo)
  = normalize_segments b (rev segs ++ done) todo.
Proof.
  intros Hsegs. revert done.
  induction Hsegs as [|s segs Hs _ IH]; intros done; [reflexivity |].
  cbn [app rev]. rewrite (normalize_segments_plain b done _ s Hs), IH.
  now rewrite <- app_assoc.
Qed.

Lemma normalize_segments_parent (b : bool) (done todo : list string) (s : string) :
  plain s ->
  normalize_segments b (s :: done) (".." :: todo) = normalize_segments b done todo.
Proof.
  intros Hs. destruct (plain_eqb s Hs) as (_ & _ & H3).
  cbn [normalize_segments]. cbn [String.eqb Ascii.eqb Bool.eqb orb]. now rewrite H3.
Qed.

Lemma concat_absolute (segs : list string) :
  segs <> [] -> "/" +:+ String.concat "/" segs = absolute segs.
Proof.
  induction segs as [|s [|s2 rest] IH]; [congruence | |]; intros _.
  - cbn. now rewrite append_empty_r.
  - change (absolute (s :: s2 :: rest))
      with ("/" +:+ s +:+ absolute (s2 :: rest)).
    rewrite <- IH by discriminate. reflexivity.
Qed.

Lemma concat_not_empty (s : string) (rest : list string) :
  s <> "" -> String.eqb (String.concat "/" (s :: rest)) "" = false.
Proof.
  intros Hs. apply String.eqb_neq. destruct s as [|c s]; [congruence |].
  destruct rest; cbn; [discriminate |]. rewrite append_cons. discriminate.
Qed.

Lemma last_char_append (x y : string) :
  y <> "" -> last_char (x +:+ y) = last_char y.
Proof.
  intros Hy. induction x as [|c x IH]; [reflexivity |].
  rewrite append_cons. cbn [last_char]. rewrite IH.
  destruct (x +:+ y) eqn:Hxy; [| reflexivity].
  destruct x; [rewrite append_nil in Hxy; congruence | discriminate].
Qed.

Lemma no_trailing_sep (s : string) :
  includes s "/" = false ->
  match last_char s with Some l => is_sep l | None => false end = false.
Proof.
  induction s as [|c s IH]; [reflexivity |]. intros Hs.
  apply includes_slash_cons in Hs. destruct Hs as [Hc Hs].
  cbn [last_char]. destruct s; [| exact (IH Hs)].
  unfold is_sep. now apply Ascii.eqb_neq.
Qed.

Lemma normalize_rooted (p' : string) :
  normalize (String "/" p') =
    let p := String "/" p' in
    let res := String.concat "/" (normalize_segments false [] (split "/" p)) in
    if String.eqb res "" then "/"
    else "/" +:+ (if match last_char p with Some l => is_sep l | None => false end
                  then res +:+ "/" else res).
Proof. reflexivity. Qed.

Lemma absolute_rooted (segs : list string) (x : string) :
  exists p', absolute segs +:+ "/" +:+ x = String "/" p'.
Proof. destruct segs; cbn [absolute]; eexists; reflexivity. Qed.

Lemma absolute_app (a b : list string) :
  absolute (a ++ b) = absolute a +:+ absolute b.
Proof.
  induction a as [|s a IH]; [reflexivity |].
  cbn [app absolute]. now rewrite IH, !append_assoc.
Qed.

(** Normalising a path made of plain segments. *)
Lemma normalize_absolute (segs : list string) (x : string) :
  Forall plain segs -> plain x ->
  normalize (absolute segs +:+ "/" +:+ x) = absolute segs +:+ "/" +:+ x.
Proof.
  intros Hsegs Hx. destruct (absolute_rooted segs x) as (p' & Hp).
  rewrite Hp at 1. rewrite normalize_rooted. cbv zeta. rewrite <- Hp.
  rewrite (split_absolute segs x Hsegs), (split_plain x (proj2 (proj2 (proj2 Hx)))).
  rewrite normalize_segments_empty, <- (app_nil_r (segs ++ [x])).
  rewrite (normalize_segments_plains false (segs ++ [x]) [] [])
    by (apply Forall_app; split; [assumption | now constructor]).
  cbn [normalize_segments]. rewrite app_nil_r, rev_involutive.
  assert (last_char (absolute segs +:+ "/" +:+ x) = last_char x) as ->.
  { rewrite <- append_assoc. apply last_char_append. apply Hx. }
  rewrite (no_trailing_sep x (proj2 (proj2 (proj2 Hx)))).
  destruct (segs ++ [x])%list as [|s rest] eqn:Hl; [now destruct segs |].
  assert (s <> "") as Hs.
  { destruct Hsegs as [|s' segs' Hs' _]; cbn in Hl; injection Hl as <- _;
      [apply Hx | apply Hs']. }
  rewrite (concat_not_empty s rest Hs), <- Hl, concat_absolute by (now destruct segs).
  rewrite absolute_app. cbn [absolute]. now rewrite append_empty_r.
Qed.

(** The parent of a directory, as [join(dir, '..')] computes it. *)
Lemma normalize_parent (segs : list string) (dir : string) :
  Forall plain segs -> plain dir ->
  normalize (absolute segs +:+ "/" +:+ dir +:+ "/" +:+ "..")
  = match segs with [] => "/" | _ => absolute segs end.
Proof.
  intros Hsegs Hdir.
  destruct (absolute_rooted segs (dir +:+ "/" +:+ "..")) as (p' & Hp).
  rewrite Hp at 1. rewrite normalize_rooted. cbv zeta. rewrite <- Hp.
  rewrite (split_absolute segs _ Hsegs).
  rewrite (split_plain_app dir _ (proj2 (proj2 (proj2 Hdir)))).
  change (split "/" ("/" +:+ "..")) with [""; ".."]. cbv beta iota.
  rewrite (append_empty_r dir).
  rewrite normalize_segments_empty.
  rewrite (normalize_segments_plains false segs [] _ Hsegs), app_nil_r.
  rewrite (normalize_segments_plain false _ _ dir Hdir).
  rewrite (normalize_segments_parent false _ _ dir Hdir).
  cbn [normalize_segments]. rewrite rev_involutive.
  assert (last_char (absolute segs +:+ "/" +:+ dir +:+ "/" +:+ "..")
          = Some "."%char) as ->.
  { rewrite <- !append_assoc. now rewrite last_char_append. }
  cbn [is_sep Ascii.eqb Bool.eqb].
  destruct Hsegs as [|s segs (Hs & _) _]; [reflexivity |].
  rewrite (concat_not_empty s segs Hs). now rewrite concat_absolute.
Qed.

Lemma list_ascii_append (a b : string) :
  list_ascii_of_string (a +:+ b)
  = (list_ascii_of_string a ++ list_ascii_of_string b)%list.
Proof.
  induction a as [|c a IH]; [reflexivity |].
  rewrite append_cons. cbn. now rewrite IH.
Qed.

Lemma list_ascii_length (a : string) :
  List.length (list_ascii_of_string a) = String.length a.
Proof. induction a as [|c a IH]; cbn; [reflexivity | now rewrite IH]. Qed.

Lemma no_sep_chars (s : string) :
  includes s "/" = false ->
  Forall (fun c => is_sep c = false) (list_ascii_of_string s).
Proof.
  induction s as [|c s IH]; intros Hs; [constructor |].
  apply includes_slash_cons in Hs. destruct Hs as [Hc Hs].
  constructor; [now apply Ascii.eqb_neq | exact (IH Hs)].
Qed.

(** The backward scan stops at the first separator that follows a
    character of the base name. *)
Lemma dirname_end_name (name before : list ascii) :
  Forall (fun c => is_sep c = false) name ->
  dirname_end (name ++ "/"%char :: before) false = Some (S (List.length before)).
Proof.
  induction 1 as [|c name Hc _ IH]; [reflexivity |].
  cbn [app dirname_end]. now rewrite Hc.
Qed.

Lemma dirname_end_base (name before : list ascii) (m : bool) :
  name <> [] ->
  Forall (fun c => is_sep c = false) name ->
  dirname_end (name ++ "/"%char :: before) m = Some (S (List.length before)).
Proof.
  intros Hne Hname. destruct Hname as [|c name Hc Hname]; [congruence |].
  cbn [app dirname_end]. rewrite Hc. now apply dirname_end_name.
Qed.

Lemma substring_prefix (a b : string) :
  substring 0 (String.length a) (a +:+ b) = a.
Proof.
  induction a as [|c a IH]; [now destruct b |].
  rewrite append_cons. cbn. now rewrite IH.
Qed.

(** [dirname] of an entry inside a directory is the directory. *)
Lemma dirname_child (d name : string) :
  d <> "" -> d <> "/" -> name <> "" -> includes name "/" = false ->
  dirname (d +:+ "/" +:+ name) = d.
Proof.
  intros Hd Hroot Hname Hplain. destruct d as [|c rd]; [congruence |].
  rewrite append_cons. unfold dirname. rewrite list_ascii_append.
  change (list_ascii_of_string ("/" +:+ name))
    with ("/"%char :: list_ascii_of_string name).
  rewrite rev_app_distr. cbn [rev]. rewrite <- app_assoc. cbn [app].
  rewrite dirname_end_base.
  - rewrite length_rev, list_ascii_length.
    assert (is_sep c && (S (String.length rd) =? 1)%nat = false) as ->.
    { destruct (is_sep c) eqn:Hc; [| reflexivity].
      destruct rd; [| reflexivity].
      apply Ascii.eqb_eq in Hc. subst c. congruence. }
    rewrite <- append_cons.
    apply (substring_prefix (String c rd)).
  - destruct name; [congruence |]. cbn. intros Hnil.
    apply app_eq_nil in Hnil. destruct Hnil; discriminate.
  - apply Forall_rev. now apply no_sep_chars.
Qed.

Lemma plain_constants : plain "dist" /\ plain "index.js".
Proof. repeat split; discriminate. Qed.

Lemma join_dist (root : string) :
  root <> "" ->
  join [root; "dist"; "index.js"]
  = normalize (root +:+ "/" +:+ "dist" +:+ "/" +:+ "index.js").
Proof.
  intros Hr. unfold join. cbn [List.filter].
  apply String.eqb_neq in Hr. rewrite Hr. reflexivity.
Qed.

Lemma length_append (a b : string) :
  String.length (a +:+ b) = String.length a + String.length b.
Proof.
  induction a as [|c a IH]; [reflexivity |].
  rewrite append_cons. cbn. now rewrite IH.
Qed.

Lemma dist_index_path (segs : list string) (dir file : string) :
  Forall plain segs -> plain dir -> plain file ->
  let __filename := absolute segs +:+ "/" +:+ dir +:+ "/" +:+ file in
  join [join [dirname __filename; ".."]; "dist"; "index.js"]
  = absolute segs +:+ "/dist/index.js".
Proof.
  intros Hsegs Hdir Hfile. cbv zeta.
  assert (absolute segs +:+ "/" +:+ dir <> "") as Hne
    by (destruct segs; discriminate).
  assert (dirname (absolute segs +:+ "/" +:+ dir +:+ "/" +:+ file)
          = absolute segs +:+ "/" +:+ dir) as ->.
  { rewrite <- (append_assoc (absolute segs)), <- append_assoc.
    rewrite (append_assoc (absolute segs)).
    apply dirname_child; [exact Hne | | apply Hfile | apply Hfile].
    intros Heq. apply (f_equal String.length) in Heq.
    rewrite !length_append in Heq. destruct Hdir as (Hd & _).
    destruct dir; [congruence |]. cbn in Heq. lia. }
  assert (join [absolute segs +:+ "/" +:+ dir; ".."]
          = match segs with [] => "/" | _ => absolute segs end) as ->.
  { unfold join. cbn [List.filter]. apply String.eqb_neq in Hne. rewrite Hne.
    cbn [negb String.eqb Ascii.eqb Bool.eqb]. cbn [String.concat].
    rewrite !append_assoc. now apply normalize_parent. }
  destruct Hsegs as [|s segs Hs Hsegs]; [vm_compute; reflexivity |].
  rewrite join_dist by (destruct Hs; discriminate).
  change (absolute (s :: segs) +:+ "/" +:+ "dist" +:+ "/" +:+ "index.js")
    with (absolute (s :: segs) +:+ absolute ["dist"] +:+ "/" +:+ "index.js").
  rewrite <- (append_assoc (absolute (s :: segs))), <- absolute_app.
  rewrite normalize_absolute;
    [ | apply Forall_app; split; [now constructor | constructor; [apply plain_constants | constructor]]
      | apply plain_constants ].
  rewrite absolute_app, append_assoc. reflexivity.
Qed.


Section BuildCheck.
Context `{CheckBuild.FileSystem}.

(** X14.  Installed as [root/dir/file], the build check looks for
    [root/dist/index.js], whatever the working directory.  When that file
    is missing it prints the two error lines and ends the process with
    exit code 1, without the success line; when it exists it prints the
    success line and lets the process go on. *)
Theorem check_build_checks_project_dist (segs : list string) (dir file : string)
    (st : State) :
  Forall plain segs -> plain dir -> plain file ->
  let __filename := absolute segs +:+ "/" +:+ dir +:+ "/" +:+ file in
  let target := absolute segs +:+ "/dist/index.js" in
  exists out st',
    CheckBuild.check_build __filename st = (out, st')
    /\ queries st' = queries st
    /\ (CheckBuild.existsSync target = false ->
        out = Exited 1
        /\ console st' = (console st ++ build_missing_lines)%list)
    /\ (CheckBuild.existsSync target = true ->
        out = Value tt
        /\ console st' = (console st ++ [build_found_line])%list).
Proof.
  intros Hsegs Hdir Hfile. cbv zeta. unfold CheckBuild.check_build.
  rewrite (dist_index_path segs dir file Hsegs Hdir Hfile).
  unfold console_log, console_error, write_line, process_exit, mbind, mret,
    Script_bind, Script_ret.
  destruct (CheckBuild.existsSync (absolute segs +:+ "/dist/index.js")); cbn;
    eexists _, _; (split; [reflexivity |]); cbn; rewrite <- ?app_assoc;
    (split; [reflexivity |]); split; intros Hx; try discriminate Hx; auto.
Qed.

End BuildCheck.


(* ===================================================================== *)
(** ** Concrete runs of the further properties *)
(* ===================================================================== *)

(** Two clients, one resolving after 6000 ms and one never: same run. *)
Lemma sendEmail_late_outcome_discarded_witness :
  sendEmail (@Build_t (stub_per_client answer_by_security) (Some opts_test))
    request (boot env_test)
  = sendEmail (@Build_t (stub_per_client answer_by_security) (Some opts_secure))
      request (boot env_test).
Proof.
  apply (sendEmail_late_outcome_discarded
           (H := stub_per_client answer_by_security) opts_test opts_secure
           (SettlesAt (6 * 1000) (Fulfilled None)) Pending request
           (boot env_test) eq_refl eq_refl eq_refl eq_refl).
Defined.

(** A slow transport: the attempt and one more event are logged. *)
Lemma sendEmail_logs_two_events_witness :
  transporter (service_test slow) = Some opts_test
  /\ exists outcome,
       logs (snd (sendEmail (service_test slow) request (boot env_test)))
       = [attempt_event request; outcome].
Proof.
  split; [reflexivity |].
  destruct (sendEmail_logs_two_events (H := stub slow) (service_test slow)
              request (boot env_test) opts_test eq_refl)
    as (r & w' & outcome & Hrun & Hlogs & _).
  exists outcome. rewrite Hrun. exact Hlogs.
Defined.

(** Two requests that differ in their bodies only. *)
Lemma sendEmail_body_not_observed_witness :
  html request <> html request_other_body
  /\ fst (sendEmail (service_test hung) request (boot env_test))
     = fst (sendEmail (service_test hung) request_other_body (boot env_test)).
Proof.
  split; [discriminate |].
  apply (sendEmail_body_not_observed (H := stub hung) (service_test hung)
           request request_other_body (boot env_test) opts_test
           eq_refl eq_refl eq_refl eq_refl).
Defined.

Lemma constructor_env_2525 :
  constructor (H := stub hung) (boot env_2525)
  = (Normal (@Build_t (stub hung) (Some opts_2525)),
     snd (constructor (H := stub hung) (boot env_2525))).
Proof. vm_compute. reflexivity. Defined.

Lemma env_2525_port : env (boot env_2525) !! "SMTP_PORT" = Some (show_nat 2525).
Proof. vm_compute. reflexivity. Defined.

(** SMTP_PORT set to 2525. *)
Lemma constructor_decimal_port_witness :
  env_2525 !! "SMTP_PORT" = Some "2525" /\ port opts_2525 = Num 2525.
Proof.
  split; [vm_compute; reflexivity |].
  destruct (constructor_decimal_port (H := stub hung) (boot env_2525) _
              (@Build_t (stub hung) (Some opts_2525)) opts_2525 2525
              constructor_env_2525 eq_refl env_2525_port eq_refl)
    as (opts & Heq & Hport).
  cbn in Heq. subst opts. exact Hport.
Defined.

Lemma constructor_env_secure :
  constructor (H := stub hung) (boot env_secure)
  = (Normal (@Build_t (stub hung) (Some opts_secure)),
     snd (constructor (H := stub hung) (boot env_secure))).
Proof. vm_compute. reflexivity. Defined.

(** SMTP_PORT set to 465. *)
Lemma constructor_secure_only_465_witness :
  secure opts_secure = true /\ port opts_secure = Num 465.
Proof.
  split; [reflexivity |].
  destruct (constructor_secure_only_465 (H := stub hung) (boot env_secure) _
              (@Build_t (stub hung) (Some opts_secure)) opts_secure
              constructor_env_secure eq_refl)
    as (opts & Heq & Hsec & _).
  cbn in Heq. subst opts. exact (Hsec eq_refl).
Defined.

(** The database is down: exit code 1, the select only. *)
Lemma fixAdminUser_no_write_on_early_failure_witness :
  fst (fixAdminUser (H := db_down) start) = Exited 1
  /\ queries (snd (fixAdminUser (H := db_down) start)) = [select_admin].
Proof.
  destruct (fixAdminUser_no_write_on_early_failure (H := db_down) start
              (or_introl (ex_intro _ (ErrorObject "connection refused") eq_refl)))
    as (st' & pre & e & Hrun & Hq & _).
  rewrite Hrun. split; [reflexivity | exact Hq].
Defined.

(** The user is found but the update returns no row. *)
Lemma fixAdminUser_write_without_row_fails_witness :
  fst (fixAdminUser (H := db_update_returns_nothing) start) = Exited 1
  /\ queries (snd (fixAdminUser (H := db_update_returns_nothing) start))
     = [select_admin; update_admin "hash" 0].
Proof.
  destruct (proj1 (fixAdminUser_write_without_row_fails
                     (H := db_update_returns_nothing) start "hash" eq_refl)
              (Some "user", None) [] eq_refl eq_refl)
    as (st' & pre & Hrun & Hq & _).
  rewrite Hrun. split; [reflexivity | exact Hq].
Defined.

Lemma plain_srv : Forall plain ["srv"; "app"].
Proof. repeat constructor; discriminate. Defined.

Lemma plain_scripts : plain "scripts" /\ plain "check-build.js".
Proof. repeat split; discriminate. Defined.

(** Installed under /srv/app/scripts with no build present. *)
Lemma check_build_checks_project_dist_witness :
  Forall plain ["srv"; "app"]
  /\ fst (CheckBuild.check_build (H := fs_stub [])
            "/srv/app/scripts/check-build.js" start)
     = Exited 1.
Proof.
  split; [exact plain_srv |].
  destruct (check_build_checks_project_dist (H := fs_stub []) ["srv"; "app"]
              "scripts" "check-build.js" start plain_srv
              (proj1 plain_scripts) (proj2 plain_scripts))
    as (out & st' & Hrun & _ & Hmissing & _).
  change (absolute ["srv"; "app"] +:+ "/" +:+ "scripts" +:+ "/"
          +:+ "check-build.js")
    with "/srv/app/scripts/check-build.js" in Hrun.
  rewrite Hrun. exact (proj1 (Hmissing eq_refl)).
Defined.

(** *** Runs of the scripts *)

(** A found user whose update returns the row: exit code 0. *)
Example fixAdminUser_existing_user :
  let db :=
    persistence_stub
      (fun q => match q with
                | SelectUsersByEmail _ _ => Rows [(None, None)]
                | UpdateUsersByEmail _ role h _ => Rows [(Some role, Some h)]
                | InsertUser _ _ _ _ _ => Rows []
                end)
      (fun _ => Hashed "hash") in
  let run := fixAdminUser (H := db) start in
  fst run = Exited 0
  /\ queries (snd run) = [select_admin; update_admin "hash" 0]
  /\ In (LogLine "   Current role: not set") (console (snd run))
  /\ In (LogLine "   New role: admin") (console (snd run)).
Proof. vm_compute. auto 20. Qed.

(** The build is present: the script goes on. *)
Example check_build_present :
  CheckBuild.check_build (H := fs_stub ["/srv/app/dist/index.js"])
    "/srv/app/scripts/check-build.js" start
  = (Value tt,
     {| console := [build_found_line]; queries := []; hashed := []; now := 0 |}).
Proof. vm_compute. reflexivity. Qed.

Example dirname_examples :
  dirname "/a//b" = "/a/" /\ dirname "/a" = "/" /\ dirname "a" = "."
  /\ dirname "//a" = "//" /\ dirname "/a/b/" = "/a" /\ dirname "" = ".".
Proof. vm_compute. repeat split. Qed.

Example join_examples :
  join ["/a/b"; ".."] = "/a" /\ join ["a"; ".."; ".."] = ".."
  /\ join ["/"; ".."] = "/" /\ join [""; ""] = "." /\ join ["a/"; "./b/"] = "a/b/".
Proof. vm_compute. repeat split. Qed.

(* ===================================================================== *)
(** ** The service at run time: properties *)
(* ===================================================================== *)

Ltac rt_unfold :=
  unfold Runtime.sendEmail, Runtime.sendMail, Runtime.await, Runtime.try_catch,
    Runtime.throw, Runtime.lift, logger_info, logger_warn, logger_error, emit,
    process_env, Date_now, mbind, mret, Runtime.Js_bind, Runtime.Js_ret.

Lemma rt_race_settles (p : Runtime.Promise) :
  exists n s,
    Runtime.Promise_race
      [p; Runtime.reject_after EMAIL_TIMEOUT_MS
            (Runtime.Typed (ErrorObject timeout_reason))]
    = Runtime.SettlesAt n s
    /\ n <= EMAIL_TIMEOUT_MS
    /\ (p = Runtime.SettlesAt n s
        \/ s = Runtime.Rejected (Runtime.Typed (ErrorObject timeout_reason))).
Proof.
  destruct p as [n s|]; cbn.
  - destruct (Nat.leb_spec n EMAIL_TIMEOUT_MS) as [Hle|Hgt].
    + exists n, s. auto.
    + eexists _, _. split; [reflexivity |]. split; [lia | now right].
  - eexists _, _. split; [reflexivity |]. split; [lia | now right].
Qed.

Lemma rt_race_early (n : nat) (s : Runtime.Settlement) :
  n < EMAIL_TIMEOUT_MS ->
  Runtime.Promise_race
    [Runtime.SettlesAt n s;
     Runtime.reject_after EMAIL_TIMEOUT_MS
       (Runtime.Typed (ErrorObject timeout_reason))]
  = Runtime.SettlesAt n s.
Proof.
  intros Hn. cbn.
  destruct (Nat.leb_spec n EMAIL_TIMEOUT_MS) as [_|Hgt]; [reflexivity | lia].
Qed.

Section RuntimeRuns.
Context `{Runtime.Nodemailer}.
Variables (this : Runtime.t) (options : EmailOptions) (w : World).

Lemma rt_sendEmail_unconfigured :
  Runtime.transporter this = None ->
  Runtime.sendEmail this options w =
    (Runtime.Normal {| success := false;
                       error := Some "Email service not configured" |},
     {| env := env w; logs := logs w ++ [warn_unconfigured_send options];
        ops := ops w; clock := clock w |}).
Proof. intros Ht. unfold Runtime.sendEmail. rewrite Ht. reflexivity. Qed.

(** The run when the call throws on the spot. *)
Lemma rt_sendEmail_thrown (tr : Runtime.Transporter) (e : Runtime.Caught) :
  Runtime.transporter this = Some tr ->
  Runtime.sendMail_answer tr (outgoing w options) = Runtime.ThrowsSync e ->
  exists w',
    Runtime.sendEmail this options w = (Runtime.handled e, w')
    /\ env w' = env w
    /\ ops w' = (ops w ++ [SendMailOp (outgoing w options)])%list.
Proof.
  intros Ht Ha. unfold outgoing in Ha. rt_unfold. rewrite Ht. cbn.
  rewrite Ha. cbn. unfold Runtime.handled.
  destruct (Runtime.message_of e) as [m|v]; cbn;
    try destruct (includes m "timeout"); eexists; repeat split.
Qed.

(** The run when the race settles. *)
Lemma rt_sendEmail_settled (tr : Runtime.Transporter) (p : Runtime.Promise)
    (n : nat) (s : Runtime.Settlement) :
  Runtime.transporter this = Some tr ->
  Runtime.sendMail_answer tr (outgoing w options) = Runtime.Returns p ->
  Runtime.Promise_race
    [p; Runtime.reject_after EMAIL_TIMEOUT_MS
          (Runtime.Typed (ErrorObject timeout_reason))]
  = Runtime.SettlesAt n s ->
  exists w',
    Runtime.sendEmail this options w =
      (match s with
       | Runtime.Fulfilled _ =>
           Runtime.Normal {| success := true; error := None |}
       | Runtime.Rejected e => Runtime.handled e
       end, w')
    /\ env w' = env w
    /\ ops w' = (ops w ++ [SendMailOp (outgoing w options)])%list.
Proof.
  intros Ht Ha Hr. unfold outgoing in Ha. rt_unfold. rewrite Ht. cbn.
  rewrite Ha. cbn. cbn in Hr. rewrite Hr. unfold Runtime.handled.
  destruct s as [v|e]; cbn; [eexists; repeat split |].
  destruct (Runtime.message_of e) as [m|v]; cbn;
    try destruct (includes m "timeout"); eexists; repeat split.
Qed.

End RuntimeRuns.

Lemma handled_abrupt (e e' : Runtime.Caught) :
  Runtime.handled e = Runtime.Abrupt e' ->
  exists v,
    e = Runtime.ErrorNonString v
    /\ e' = Runtime.Typed (Runtime.includes_TypeError v).
Proof.
  unfold Runtime.handled. destruct e as [[m|s|f]|v]; cbn; try discriminate.
  intros [= <-]. eauto.
Qed.

Lemma handled_not_hang (e : Runtime.Caught) : Runtime.handled e <> Runtime.Hang.
Proof.
  unfold Runtime.handled. destruct (Runtime.message_of e); discriminate.
Qed.

Section RuntimeProperties.
Context `{Runtime.Nodemailer}.

(** X1.  Whatever the transport does, a [sendEmail] call completes and
    never waits forever, and it leaves the environment as it was.  It
    returns a result, except in one case: when the value that reaches the
    [catch] block is an [Error] whose message is not a string (undefined,
    null, a boolean, a number, a plain object), the [includes] call of
    the [catch] block throws, and that [TypeError] escapes the call. *)
Theorem sendEmail_completes_or_escapes (this : Runtime.t)
    (options : EmailOptions) (w : World) :
  exists c w',
    Runtime.sendEmail this options w = (c, w')
    /\ c <> Runtime.Hang
    /\ env w' = env w
    /\ (forall e,
          c = Runtime.Abrupt e ->
          exists tr v,
            Runtime.transporter this = Some tr
            /\ e = Runtime.Typed (Runtime.includes_TypeError v)
            /\ Runtime.may_fail_with
                 (Runtime.sendMail_answer tr (outgoing w options))
                 (Runtime.ErrorNonString v))
    /\ (forall tr v,
          Runtime.transporter this = Some tr ->
          Runtime.fails_with (Runtime.sendMail_answer tr (outgoing w options))
            (Runtime.ErrorNonString v) ->
          c = Runtime.Abrupt (Runtime.Typed (Runtime.includes_TypeError v))).
Proof.
  destruct (Runtime.transporter this) as [tr|] eqn:Ht.
  - pose (a := Runtime.sendMail_answer tr (outgoing w options)).
    assert (Runtime.sendMail_answer tr (outgoing w options) = a) as Ha
      by reflexivity.
    clearbody a. destruct a as [p|e].
    + destruct (rt_race_settles p) as (n & s & Hr & Hle & Hwho).
      destruct (rt_sendEmail_settled this options w tr p n s Ht Ha Hr)
        as (w' & Hrun & Henv & _).
      eexists _, w'. split; [exact Hrun |].
      split; [destruct s; [discriminate | apply handled_not_hang] |].
      split; [exact Henv |]. split.
      * intros e' Hc. destruct s as [v|e]; [discriminate |].
        apply handled_abrupt in Hc. destruct Hc as (v & -> & ->).
        exists tr, v. split; [reflexivity |]. split; [reflexivity |].
        rewrite Ha. destruct Hwho as [-> | [=]]. right. exists n. auto.
      * intros tr0 v [= <-] Hf. rewrite Ha in Hf.
        destruct Hf as [[=] | (n' & [= ->] & Hn')].
        rewrite (rt_race_early n' _ Hn') in Hr. injection Hr as <- <-.
        reflexivity.
    + destruct (rt_sendEmail_thrown this options w tr e Ht Ha)
        as (w' & Hrun & Henv & _).
      eexists _, w'. split; [exact Hrun |].
      split; [apply handled_not_hang |]. split; [exact Henv |]. split.
      * intros e' Hc. apply handled_abrupt in Hc. destruct Hc as (v & -> & ->).
        exists tr, v. split; [reflexivity |]. split; [reflexivity |].
        rewrite Ha. now left.
      * intros tr0 v [= <-] Hf. rewrite Ha in Hf.
        destruct Hf as [[= ->] | (n' & [=] & _)]. reflexivity.
  - rewrite (rt_sendEmail_unconfigured this options w Ht).
    eexists _, _. split; [reflexivity |]. split; [discriminate |].
    split; [reflexivity |]. split; [discriminate |].
    intros tr v [=].
Qed.

End RuntimeProperties.

(** On typed answers the run-time embedding is [sendEmail] itself. *)
Lemma sendEmail_refines `{N : Nodemailer} (this : t) (options : EmailOptions)
    (w : World) :
  Runtime.sendEmail (H := Runtime.widen N)
    (@Runtime.Build_t (Runtime.widen N) (transporter this)) options w
  = Runtime.lift (sendEmail this options) w.
Proof.
  unfold Runtime.lift.
  destruct (transporter this) as [tr|] eqn:Ht.
  - destruct (sendMail_answer tr (outgoing w options)) as [p|e] eqn:Ha.
    + destruct (race_settles p) as (n & s & Hr & _).
      rewrite (sendEmail_settled_run this options w tr p n s Ht Ha Hr).
      rt_unfold. cbn. unfold outgoing in Ha. rewrite Ha. cbn.
      destruct p as [k sp|]; cbn in Hr |- *.
      * destruct (k <=? EMAIL_TIMEOUT_MS)%nat; injection Hr as <- <-; cbn.
        -- destruct sp as [v|[m| |]]; cbn; unfold failure_of; cbn;
             rewrite ?unknown_error_no_timeout;
             try destruct (includes m "timeout"); cbn;
             rewrite <- ?app_assoc; cbn;
             replace (clock w + k - clock w) with k by lia; reflexivity.
        -- rewrite timeout_reason_has_timeout. unfold failure_of. cbn.
           rewrite timeout_reason_has_timeout. rewrite <- ?app_assoc. cbn.
           replace (clock w + EMAIL_TIMEOUT_MS - clock w)
             with EMAIL_TIMEOUT_MS by lia. reflexivity.
      * injection Hr as <- <-. cbn. rewrite timeout_reason_has_timeout.
        unfold failure_of. cbn. rewrite timeout_reason_has_timeout.
        rewrite <- ?app_assoc. cbn.
        replace (clock w + EMAIL_TIMEOUT_MS - clock w)
          with EMAIL_TIMEOUT_MS by lia. reflexivity.
    + rewrite (sendEmail_thrown_run this options w tr e Ht Ha).
      rt_unfold. cbn. unfold outgoing in Ha. rewrite Ha. cbn.
      rewrite Nat.sub_diag. unfold failure_of.
      destruct e as [m| |]; cbn; rewrite ?unknown_error_no_timeout;
        try destruct (includes m "timeout"); cbn; rewrite <- ?app_assoc;
        reflexivity.
  - rewrite (sendEmail_unconfigured this options w Ht).
    unfold Runtime.sendEmail. cbn. reflexivity.
Qed.

(** C4.  The claim fails on the code.  A configured service whose
    transport rejects at once with an [Error] instance whose message is
    the number 42 does not get a result back: the failure is logged, then
    [errorMessage.includes] is not a function, and the [TypeError] raised
    inside the [catch] block escapes [sendEmail]. *)
Theorem C4_exception_escapes :
  let this :=
    @Runtime.Build_t (Runtime.stub Runtime.rejecting_with_number)
      (Some opts_test) in
  let run := Runtime.sendEmail this request (boot env_test) in
  fst run
  = Runtime.Abrupt
      (Runtime.Typed (ErrorObject "errorMessage.includes is not a function"))
  /\ log_message <$> logs (snd run)
     = ["Attempting to send email"; "Failed to send email"].
Proof. vm_compute. split; reflexivity. Qed.
